(** * csv_to_xlsx.py: answer parsing, grouping and column schemas

    A shallow embedding of [src/csv_to_xlsx.py].  Python values are modelled
    as follows.

    - A [str] is the list of its Unicode code points ([pystr]).  Searching
      and splitting are written out on that list; [str.strip] removes the
      code points CPython classifies as white space.
    - A row produced by [csv.DictReader] is a finite map from column names to
      cells; a cell is [None] (the reader's [restval], used when a row is
      shorter than the header) or a string.  The extra entry a row longer
      than the header gets is under a key the script never reads and is
      left out.
    - [dict]s used as counters are [gmap]s; the [defaultdict(list)] of
      [process_csv], whose insertion order Python keeps, is an association
      list.
    - Exceptions are results in a sum type.
    - The built-ins that depend on Unicode tables or on floating point
      ([int], [float], [str.lower]) and the codecs and CSV reader of the
      standard library are section variables: every theorem holds for
      whatever the interpreter provides.
    - What openpyxl, the file system and the typesetter do with a sheet and
      with a document is left to two further section variables, each of
      which may raise; the lines printed on the way are left out. *)

From Stdlib Require Import ZArith NArith Ascii List Lia Permutation Sorted.
From Stdlib Require Import DecimalString DecimalNat DecimalFacts.
From stdpp Require Import base option list strings gmap lexico.

Local Open Scope N_scope.

(** ** Strings *)

Abbreviation pystr := (list N).

(** Code points of a UTF-8 encoded literal, so that the constants of the
    script can be written as they are in the source. *)
Fixpoint utf8_points (bs : list N) : pystr :=
  match bs with
  | [] => []
  | b :: bs1 =>
      if b <? 128 then b :: utf8_points bs1
      else match bs1 with
           | [] => [b]
           | c :: bs2 =>
               if b <? 224 then ((b - 192) * 64 + (c - 128)) :: utf8_points bs2
               else match bs2 with
                    | [] => [b; c]
                    | d :: bs3 =>
                        if b <? 240
                        then ((b - 224) * 4096 + (c - 128) * 64 + (d - 128))
                               :: utf8_points bs3
                        else match bs3 with
                             | [] => [b; c; d]
                             | e :: bs4 =>
                                 ((b - 240) * 262144 + (c - 128) * 4096
                                  + (d - 128) * 64 + (e - 128))
                                   :: utf8_points bs4
                             end
                    end
           end
  end.

Definition lit (s : String.string) : pystr :=
  utf8_points (map N_of_ascii (String.list_ascii_of_string s)).
Arguments lit s%_string.

(** [chr.isspace()] as [str.strip] uses it (CPython's
    [_PyUnicode_IsWhitespace]). *)
Definition isspace (c : N) : bool :=
  ((9 <=? c) && (c <=? 13)) || ((28 <=? c) && (c <=? 32))
  || (c =? 133) || (c =? 160) || (c =? 5760)
  || ((8192 <=? c) && (c <=? 8202))
  || (c =? 8232) || (c =? 8233) || (c =? 8239) || (c =? 8287) || (c =? 12288).

Fixpoint lstrip (s : pystr) : pystr :=
  match s with
  | [] => []
  | c :: s' => if isspace c then lstrip s' else s
  end.

Definition rstrip (s : pystr) : pystr := rev (lstrip (rev s)).

(** [s.strip()] *)
Definition strip (s : pystr) : pystr := rstrip (lstrip s).

(** [s.split("\n")] *)
Fixpoint split_lines (s : pystr) : list pystr :=
  match s with
  | [] => [[]]
  | c :: s' =>
      if c =? 10 then [] :: split_lines s'
      else match split_lines s' with
           | l :: ls => (c :: l) :: ls
           | [] => [[c]]
           end
  end.

(** [": " in line] *)
Fixpoint contains_sep (line : pystr) : bool :=
  match line with
  | c :: (d :: _) as rest => ((c =? 58) && (d =? 32)) || contains_sep rest
  | _ => false
  end.

(** [line.split(": ", 1)], for a line that contains the separator: the text
    before its first occurrence and the text after it.  Without a separator
    Python returns the one-element list [[line]]; here the second component
    is then empty (the script never splits such a line). *)
Fixpoint split_sep (line : pystr) : pystr * pystr :=
  match line with
  | c :: (d :: after) as rest =>
      if (c =? 58) && (d =? 32) then ([], after)
      else let '(k, v) := split_sep rest in (c :: k, v)
  | _ => (line, [])
  end.

(** [s.startswith(p)] *)
Fixpoint startswith (p s : pystr) : bool :=
  match p, s with
  | [], _ => true
  | a :: p', b :: s' => (a =? b) && startswith p' s'
  | _ :: _, [] => false
  end.

(** [str(n)] for a non-negative integer. *)
Definition str_of_nat (n : nat) : pystr :=
  map N_of_ascii
      (String.list_ascii_of_string (NilEmpty.string_of_uint (Nat.to_uint n))).

(** [a < b] and [a <= b] on strings: lexicographic on code points. *)
Fixpoint str_ltb (a b : pystr) : bool :=
  match a, b with
  | _, [] => false
  | [], _ :: _ => true
  | x :: a', y :: b' => (x <? y) || ((x =? y) && str_ltb a' b')
  end.

Definition str_leb (a b : pystr) : bool := negb (str_ltb b a).

(** ** Constants of the script *)

Definition GRADES_COLUMN : pystr :=
  Eval vm_compute in lit "BewerbungenZusatzfragenBeantworteteFragenPflicht".
Definition GROUP_COLUMN : pystr :=
  Eval vm_compute in
    lit "Schüler:in Bildungsangebot Vollqualifizierter Schlüssel".

Definition COL_ANREDE : pystr :=
  Eval vm_compute in lit "Schüler:in Anrede Bezeichnung".
Definition COL_NAME : pystr := Eval vm_compute in lit "Schüler:in Name".
Definition COL_VORNAME : pystr := Eval vm_compute in lit "Schüler:in Vorname".
Definition COL_GEBURTSDATUM : pystr :=
  Eval vm_compute in lit "Schüler:in Geburtsdatum".
Definition COL_FOERDERBEDARF : pystr :=
  Eval vm_compute in lit "Schüler:in Sonderpädagogischer Förderbedarf".
Definition COL_RANG : pystr :=
  Eval vm_compute in lit "Schüler:in Bewerbung Prioritaetsrang".
Definition COL_SCHULGLIEDERUNG : pystr :=
  Eval vm_compute in lit "Schüler:in abgebende Schule Schulgliederung".

Definition BASE_FIELDS : list (pystr * pystr) :=
  [ (COL_ANREDE, lit "Anrede");
    (COL_NAME, lit "Name");
    (COL_VORNAME, lit "Vorname");
    (COL_GEBURTSDATUM, lit "Geburtsdatum");
    (COL_FOERDERBEDARF, lit "Sonderpäd. Förderbedarf");
    (COL_RANG, lit "Rang") ].

Definition FG_EXTRA_FIELD : pystr * pystr :=
  (COL_SCHULGLIEDERUNG, lit "Schulgliederung").

Definition BEWERTUNG_KEY : pystr :=
  Eval vm_compute in lit "Bitte geben Sie die Bewertung vom Zeugnis ein.".

(** [BEWERTUNG_RENAME.get(count, default)] *)
Definition BEWERTUNG_RENAME (count : nat) (default : pystr) : pystr :=
  match count with
  | 1%nat => lit "AV"
  | 2%nat => lit "SV"
  | _ => default
  end.

Definition BEWERTUNG_WERTE : list (pystr * Z) :=
  [ (lit "verdient besondere Anerkennung", 10%Z);
    (lit "entspricht den Erwartungen in vollem Umfang", 20%Z);
    (lit "entspricht den Erwartungen", 30%Z);
    (lit "entspricht den Erwartungen mit Einschränkungen", 40%Z);
    (lit "entspricht nicht den Erwartungen", 50%Z) ].

(** An answer value: the text of the line, or the number the grading scale
    puts in its place. *)
Inductive answer_value : Type :=
  | Text (s : pystr)
  | Number (n : Z).

Global Instance answer_value_eq_dec : EqDecision answer_value.
Proof. solve_decision. Defined.

(** Lookup in a literal dict whose keys are distinct. *)
Fixpoint assoc_get {V : Type} (d : list (pystr * V)) (k : pystr) : option V :=
  match d with
  | [] => None
  | (k', v) :: d' => if decide (k' = k) then Some v else assoc_get d' k
  end.

(** [BEWERTUNG_WERTE.get(value, value)] *)
Definition bewertung_wert (value : pystr) : answer_value :=
  match assoc_get BEWERTUNG_WERTE value with
  | Some n => Number n
  | None => Text value
  end.

(** ** parse_answers *)

(** The f-string [f"{name} ({count})"]. *)
Definition numbered (name : pystr) (count : nat) : pystr :=
  name ++ lit " (" ++ str_of_nat count ++ lit ")".

(** The state of the loop: [results] and [seen]. *)
Definition parse_state : Type := list (pystr * answer_value) * gmap pystr nat.

(** One iteration of [for line in field_content.split("\n")]. *)
Definition parse_step (st : parse_state) (line : pystr) : parse_state :=
  let '(results, seen) := st in
  let line := strip line in
  if bool_decide (line = []) || negb (contains_sep line) then st
  else
    let '(key, value) := split_sep line in
    let key := strip key in
    let value := strip value in
    let count := (default 0%nat (seen !! key) + 1)%nat in
    let seen := <[key := count]> seen in
    let '(col_name, value) :=
      if decide (key = BEWERTUNG_KEY)
      then (BEWERTUNG_RENAME count (numbered (lit "Bewertung") count),
            bewertung_wert value)
      else ((if decide (count = 1%nat) then key else numbered key count),
            Text value) in
    (results ++ [(col_name, value)], seen).

(** [parse_answers(field_content)]; [None] is Python's [None]. *)
Definition parse_answers (field_content : option pystr)
  : list (pystr * answer_value) :=
  match field_content with
  | None => []
  | Some s =>
      if bool_decide (s = []) || bool_decide (strip s = []) then []
      else fst (fold_left parse_step (split_lines s) ([], ∅))
  end.

(** *** The numbering rule, stated on the parsed lines

    [parse_line] is the part of the loop body that reads one line: [None]
    when the line is skipped by [continue], the trimmed raw key and raw value
    otherwise.  [raw_pairs] lists the lines that are not skipped, in line
    order. *)
Definition parse_line (line : pystr) : option (pystr * pystr) :=
  let line := strip line in
  if bool_decide (line = []) || negb (contains_sep line) then None
  else let '(key, value) := split_sep line in Some (strip key, strip value).

Definition raw_pairs (s : pystr) : list (pystr * pystr) :=
  omap parse_line (split_lines s).

(** How often [key] occurs in a list of keys. *)
Definition occurrences (key : pystr) (keys : list pystr) : nat :=
  length (filter (λ k, k = key) keys).

(** The output entry of a line with raw key [key] that is the [count]th
    occurrence of this key. *)
Definition entry (key : pystr) (count : nat) (value : pystr)
  : pystr * answer_value :=
  if decide (key = BEWERTUNG_KEY)
  then (BEWERTUNG_RENAME count (numbered (lit "Bewertung") count),
        bewertung_wert value)
  else ((if decide (count = 1%nat) then key else numbered key count),
        Text value).

(** The entries of the parsed lines [kvs], the keys in [before] having been
    read already. *)
Fixpoint label (before : list pystr) (kvs : list (pystr * pystr))
  : list (pystr * answer_value) :=
  match kvs with
  | [] => []
  | (k, v) :: rest =>
      entry k (S (occurrences k before)) v :: label (before ++ [k]) rest
  end.

(** A raw key that cannot be taken for a column name the parser makes up:
    it is none of [AV], [SV] and [Bewertung] and does not end with a closing
    parenthesis. *)
Definition plain_key (k : pystr) : Prop :=
  k ≠ lit "AV" ∧ k ≠ lit "SV" ∧ k ≠ lit "Bewertung" ∧ last k ≠ Some 41.

(** ** Rows, exceptions, sorting *)

(** A cell of a row read by [csv.DictReader]: [None] (the reader's value for
    a column the row is too short for) or a string. *)
Abbreviation cell := (option pystr).

(** A row: the dict from column names to cells. *)
Abbreviation record := (gmap pystr cell).

(** [rec.get(column, '')] *)
Definition rec_get (rec : record) (column : pystr) : cell :=
  default (Some []) (rec !! column).

(** The exceptions the modelled code can raise. *)
Inductive exn : Type :=
  | AttributeError   (* a [str] method called on [None] *)
  | ValueError       (* [int(s)] on text that is not a number *)
  | IndexError       (* [l[0]] on an empty list *)
  | RuntimeError     (* raised by [read_csv] itself *)
  | CsvError         (* [csv.Error], raised by the reader *)
  | LibraryError.    (* raised inside openpyxl, the file system or the
                        typesetter's subprocess *)

Global Instance exn_eq_dec : EqDecision exn.
Proof. solve_decision. Defined.

(** A computation that returns a value or raises. *)
Definition result (A : Type) : Type := exn + A.
Definition ok {A : Type} (a : A) : result A := inr a.
Definition raise {A : Type} (e : exn) : result A := inl e.
Definition bind {A B : Type} (m : result A) (k : A → result B) : result B :=
  match m with
  | inl e => inl e
  | inr a => k a
  end.

Notation "'let*' x ':=' m 'in' k" := (bind m (λ x, k))
  (at level 10, x pattern, m at level 100, k at level 200).

(** Whether a computation returns, and a function applied to what it
    returns. *)
Definition returns {A : Type} (r : result A) : bool :=
  match r with
  | inl _ => false
  | inr _ => true
  end.

Definition result_map {A B : Type} (f : A → B) (r : result A) : result B :=
  match r with
  | inl e => inl e
  | inr a => inr (f a)
  end.

(** [[f(x) for x in l]], stopping at the first exception. *)
Fixpoint mapM {A B : Type} (f : A → result B) (l : list A) : result (list B) :=
  match l with
  | [] => ok []
  | x :: l' => let* y := f x in let* ys := mapM f l' in ok (y :: ys)
  end.

(** Python's sort is stable; on a total preorder the result of a stable sort
    is determined by its input, so it is modelled by insertion from the
    right, an element going in front of the first one that is not smaller. *)
Fixpoint insert_by {A : Type} (le : A → A → bool) (x : A) (l : list A)
  : list A :=
  match l with
  | [] => [x]
  | y :: l' => if le x y then x :: l else y :: insert_by le x l'
  end.

Definition stable_sort {A : Type} (le : A → A → bool) (l : list A) : list A :=
  foldr (insert_by le) [] l.

(** [sorted(l, key=key)] and [l.sort(key=key)]: the keys are computed first,
    in list order, then the elements are sorted by their keys. *)
Definition sort_with_key {A K : Type} (key : A → result K)
    (le : K → K → bool) (l : list A) : result (list A) :=
  let* keyed := mapM (λ x, let* k := key x in ok (k, x)) l in
  ok (map snd (stable_sort (λ a b, le (fst a) (fst b)) keyed)).

(** [a] comes before [b], or ties with it, in the order of the keys. *)
Definition key_le {A K : Type} (key : A → result K) (le : K → K → bool)
    (a b : A) : Prop :=
  ∃ ka kb, key a = ok ka ∧ key b = ok kb ∧ le ka kb = true.

(** [a <= b] on tuples of two strings, and on tuples of an integer and two
    strings. *)
Definition pair_ltb (a b : pystr * pystr) : bool :=
  str_ltb (fst a) (fst b)
  || (bool_decide (fst a = fst b) && str_ltb (snd a) (snd b)).
Definition pair_leb (a b : pystr * pystr) : bool := negb (pair_ltb b a).

Definition triple_ltb (a b : Z * pystr * pystr) : bool :=
  let '(ra, na, va) := a in
  let '(rb, nb, vb) := b in
  (ra <? rb)%Z || ((ra =? rb)%Z && pair_ltb (na, va) (nb, vb)).
Definition triple_leb (a b : Z * pystr * pystr) : bool := negb (triple_ltb b a).

(** [l.insert(i, x)] for [i >= 0]. *)
Definition list_insert_at {A : Type} (i : nat) (x : A) (l : list A) : list A :=
  take i l ++ x :: drop i l.

(** A value written to a spreadsheet cell; [F] is the type of floats. *)
Inductive xl_value (F : Type) : Type :=
  | XNone
  | XStr (s : pystr)
  | XInt (n : Z)
  | XFloat (f : F).
Arguments XNone {F}.
Arguments XStr {F} s.
Arguments XInt {F} n.
Arguments XFloat {F} f.

(** ** The ordered union, as the specification words it

    The names of a list in the order in which they are first seen. *)
Fixpoint first_seen (l : list pystr) : list pystr :=
  match l with
  | [] => []
  | x :: l' => x :: filter (λ y, y ≠ x) (first_seen l')
  end.

(** ** An interpreter for plain ASCII data

    Instances of the built-ins for running the model on concrete rows:
    lower-casing of the letters A to Z, [int] on an optionally signed run of
    the digits 0 to 9 with surrounding white space, [float] on decimal
    literals with one point (given as mantissa and number of decimals), and
    a decoder that accepts 7-bit bytes only. *)
Definition ascii_lower (s : pystr) : pystr :=
  map (λ c, if (65 <=? c) && (c <=? 90) then c + 32 else c) s.

Fixpoint digits_value (acc : Z) (s : pystr) : option Z :=
  match s with
  | [] => Some acc
  | c :: s' =>
      if (48 <=? c) && (c <=? 57)
      then digits_value (10 * acc + Z.of_N (c - 48)) s'
      else None
  end.

Definition unsigned_value (s : pystr) : option Z :=
  match s with
  | [] => None
  | _ :: _ => digits_value 0 s
  end.

Definition ascii_int (s : pystr) : option Z :=
  match strip s with
  | 45 :: ds => Z.opp <$> unsigned_value ds
  | 43 :: ds => unsigned_value ds
  | ds => unsigned_value ds
  end.

Fixpoint split_point (s : pystr) : option (pystr * pystr) :=
  match s with
  | [] => None
  | c :: s' =>
      if c =? 46 then Some ([], s')
      else '(a, b) ← split_point s'; Some (c :: a, b)
  end.

Definition ascii_float (s : pystr) : option (Z * nat) :=
  let body := match strip s with
              | 45 :: ds => (true, ds)
              | 43 :: ds => (false, ds)
              | ds => (false, ds)
              end in
  '(a, b) ← split_point (snd body);
  m ← unsigned_value (a ++ b);
  Some (if fst body then Z.opp m else m, length b).


(** A line, as opposed to a text of several lines. *)
Definition no_newline (line : pystr) : Prop :=
  forallb (λ c, negb (c =? 10)) line = true.

(** A field content from its lines: the lines joined by a newline. *)
Fixpoint unlines (ls : list pystr) : pystr :=
  match ls with
  | [] => []
  | [l] => l
  | l :: ls' => l ++ 10 :: unlines ls'
  end.

(** ** The script, over the interpreter's built-ins *)

Section Script.

(** [s.lower()] *)
Variable py_lower : pystr → pystr.
(** [int(s)] on a string; [None] stands for [ValueError]. *)
Variable py_int : pystr → option Z.
(** [float(s)] on a string; [None] stands for [ValueError]. *)
Variable F : Type.
Variable py_float : pystr → option F.
(** Decoding a file's bytes as utf-8-sig and as utf-8; [None] stands for
    [UnicodeDecodeError]. *)
Variable decode_utf8_sig : list Byte.byte → option pystr.
Variable decode_utf8 : list Byte.byte → option pystr.
(** [list(csv.DictReader(f, delimiter=';', ...))] on the decoded
    text; [None] stands for [csv.Error]. *)
Variable DictReader : pystr → option (list record).

(** *** read_csv *)





(** *** write_xlsx *)

Definition base_fields (is_fg : bool) : list (pystr * pystr) :=
  if is_fg then list_insert_at 4 FG_EXTRA_FIELD BASE_FIELDS else BASE_FIELDS.

(** [if col_name not in all_answer_cols: all_answer_cols.append(col_name)] *)
Definition add_col (cols : list pystr) (col_name : pystr) : list pystr :=
  if decide (col_name ∈ cols) then cols else cols ++ [col_name].

Definition all_answer_cols (records : list record) : list pystr :=
  fold_left
    (λ cols rec,
       fold_left (λ cols answer, add_col cols (fst answer))
                 (parse_answers (rec_get rec GRADES_COLUMN)) cols)
    records [].

Definition header_labels (is_fg : bool) (records : list record)
  : list pystr :=
  map snd (base_fields is_fg) ++ all_answer_cols records.

(** [FIELD_TRANSFORMS]: one entry, for the special-needs column. *)
Definition base_cell (rec : record) (csv_col : pystr) : xl_value F :=
  let value := rec_get rec csv_col in
  if decide (csv_col = COL_FOERDERBEDARF)
  then XStr (if decide (value = Some (lit "J")) then lit "X" else [])
  else match value with
       | None => XNone
       | Some s => XStr s
       end.

(** [dict(answers)]: a later pair replaces an earlier one with its key. *)
Definition py_dict (answers : list (pystr * answer_value))
  : gmap pystr answer_value :=
  fold_left (λ d kv, <[fst kv := snd kv]> d) answers ∅.

(** [int(value)], else [float(value)], else the value as it is. *)
Definition coerce (value : answer_value) : xl_value F :=
  match value with
  | Number n => XInt n
  | Text s =>
      match py_int s with
      | Some n => XInt n
      | None =>
          match py_float s with
          | Some f => XFloat f
          | None => XStr s
          end
      end
  end.

Definition answer_cell (rec : record) (col_name : pystr) : xl_value F :=
  let answer_dict := py_dict (parse_answers (rec_get rec GRADES_COLUMN)) in
  coerce (default (Text []) (answer_dict !! col_name)).

Definition data_row (is_fg : bool) (cols : list pystr) (rec : record)
  : list (xl_value F) :=
  map (λ f, base_cell rec (fst f)) (base_fields is_fg)
  ++ map (answer_cell rec) cols.

(** The sheet [write_xlsx] fills (header row and data rows) and the number
    it returns. *)
Definition write_xlsx (records : list record) (is_fg : bool)
  : (list pystr * list (list (xl_value F))) * nat :=
  let cols := all_answer_cols records in
  ((header_labels is_fg records, map (data_row is_fg cols) records),
   length cols).

(** *** write_latex_pdf: the order of the rows *)

(** [c.lower()] for a cell [c]. *)
Definition lower_of (c : cell) : result pystr :=
  match c with
  | None => raise AttributeError
  | Some s => ok (py_lower s)
  end.

(** [int(r.get('Schüler:in Bewerbung Prioritaetsrang', '') or 999)] *)
Definition rank_of (r : record) : result Z :=
  match rec_get r COL_RANG with
  | None => ok 999%Z
  | Some s =>
      if decide (s = []) then ok 999%Z
      else match py_int s with
           | Some n => ok n
           | None => raise ValueError
           end
  end.

Definition print_key (r : record) : result (Z * pystr * pystr) :=
  let* rank := rank_of r in
  let* name := lower_of (rec_get r COL_NAME) in
  let* vorname := lower_of (rec_get r COL_VORNAME) in
  ok (rank, name, vorname).

(** [records = sorted(records, key=...)] at the head of
    [write_latex_pdf]. *)
Definition print_sorted (records : list record) : result (list record) :=
  sort_with_key print_key triple_leb records.

(** *** process_csv: grouping and order *)

(** [rec.get(GROUP_COLUMN, '').strip() or 'unbekannt'] *)
Definition group_key (rec : record) : result pystr :=
  match rec_get rec GROUP_COLUMN with
  | None => raise AttributeError
  | Some s =>
      let t := strip s in
      ok (if decide (t = []) then lit "unbekannt" else t)
  end.

(** [groups[group_key].append(rec)] on the [defaultdict(list)]. *)
Fixpoint groups_append (groups : list (pystr * list record))
    (key : pystr) (rec : record) : list (pystr * list record) :=
  match groups with
  | [] => [(key, [rec])]
  | (k, rs) :: rest =>
      if decide (k = key) then (k, rs ++ [rec]) :: rest
      else (k, rs) :: groups_append rest key rec
  end.

Fixpoint group_loop (groups : list (pystr * list record))
    (records : list record) : result (list (pystr * list record)) :=
  match records with
  | [] => ok groups
  | rec :: rest =>
      let* key := group_key rec in
      group_loop (groups_append groups key rec) rest
  end.

(** [sorted(groups.items())].  The items are compared as tuples; the keys
    of a dict are distinct, so the comparison is decided by the keys. *)
Definition sorted_items (groups : list (pystr * list record))
  : list (pystr * list record) :=
  stable_sort (λ a b, str_leb (fst a) (fst b)) groups.

Definition name_key (r : record) : result (pystr * pystr) :=
  let* name := lower_of (rec_get r COL_NAME) in
  let* vorname := lower_of (rec_get r COL_VORNAME) in
  ok (name, vorname).

Definition is_fg (bildungsgang : pystr) : bool :=
  startswith (lit "FG") bildungsgang.

End Script.

(** The rows of a file whose group key is [k], in file order. *)
Definition bucket (k : pystr) (records : list record) : list record :=
  filter (λ r, group_key r = ok k) records.

Arguments xl_value F : clear implicits.
Arguments coerce py_int {F} py_float value.
Arguments answer_cell py_int {F} py_float rec col_name.
Arguments data_row py_int {F} py_float is_fg cols rec.
Arguments write_xlsx py_int {F} py_float records is_fg.
Arguments base_cell {F} rec csv_col.

(** ** Sample inputs *)

(** A field in which the grading key occurs three times. *)
Definition three_gradings : pystr :=
  unlines [ BEWERTUNG_KEY ++ lit ": entspricht den Erwartungen";
            BEWERTUNG_KEY ++ lit ": gut";
            BEWERTUNG_KEY ++ lit ": c" ].

(** A field with a repeated subject and a line without separator. *)
Definition two_subjects : pystr :=
  unlines [ lit "Kunst: 3"; lit "keine Angabe"; lit "Mathe: 2";
            lit "Kunst: 4" ].

(** A field in which a raw key looks like a numbered column name. *)
Definition kunst_collision : pystr :=
  unlines [ lit "Kunst (2): a"; lit "Kunst: b"; lit "Kunst: c" ].

(** A row with the columns the script reads. *)
Definition make_row (group name vorname rang answers : pystr) : record :=
  <[GROUP_COLUMN := Some group]>
    (<[COL_NAME := Some name]>
       (<[COL_VORNAME := Some vorname]>
          (<[COL_RANG := Some rang]>
             (<[GRADES_COLUMN := Some answers]> ∅)))).

Definition row_zed : record :=
  make_row (lit "FG1") (lit "Zed") (lit "Anna") (lit "2") (lit "Kunst: 3").
Definition row_adam : record :=
  make_row (lit "FG1") (lit "adam") (lit "Carl") (lit "1") two_subjects.
Definition row_ADAM : record :=
  make_row (lit "FG1") (lit "ADAM") (lit "carl") [] (lit "Sport: 1.5").
Definition row_blank : record :=
  make_row (lit "  ") (lit "Abel") (lit "Bea") (lit "1") [].
Definition row_bad_rank : record :=
  make_row (lit "BG2") (lit "Abel") (lit "Bea") (lit "abc") [].

Definition sample_rows : list record :=
  [row_zed; row_blank; row_adam; row_ADAM].

(** ** escape_latex and the rows of the tables *)

(** [text.replace(old, new)] for a pattern [old] of one character. *)
Definition replace_char (old : N) (new text : pystr) : pystr :=
  flat_map (λ c, if c =? old then new else [c]) text.

(** The character a one-character literal stands for. *)
Definition chr (s : String.string) : N := hd 0 (lit s).
Arguments chr s%_string.

(** The backslash, code point 92. *)
Definition BACKSLASH : N := 92.

(** The list of pairs the loop of [escape_latex] goes through. *)
Definition LATEX_ESCAPES : list (N * pystr) :=
  [ (chr "&", lit "\&"); (chr "%", lit "\%"); (chr "$", lit "\$");
    (chr "#", lit "\#"); (chr "_", lit "\_"); (chr "{", lit "\{");
    (chr "}", lit "\}");
    (chr "~", lit "\textasciitilde{}"); (chr "^", lit "\textasciicircum{}") ].

(** [escape_latex(text)] for [None] or a string. *)
Definition escape_latex (text : option pystr) : pystr :=
  match text with
  | None => []
  | Some s =>
      if bool_decide (s = []) then []
      else
        fold_left (λ text cr, replace_char (fst cr) (snd cr) text)
                  LATEX_ESCAPES
                  (replace_char BACKSLASH (lit "\textbackslash{}") s)
  end.

(** What the passes of [escape_latex] make of one character, taken
    together: the braces put in for a backslash are escaped by the later
    passes, those put in for a tilde or a circumflex are not. *)
Definition escape_char (c : N) : pystr :=
  if c =? BACKSLASH then lit "\textbackslash\{\}"
  else if c =? chr "&" then lit "\&"
  else if c =? chr "%" then lit "\%"
  else if c =? chr "$" then lit "\$"
  else if c =? chr "#" then lit "\#"
  else if c =? chr "_" then lit "\_"
  else if c =? chr "{" then lit "\{"
  else if c =? chr "}" then lit "\}"
  else if c =? chr "~" then lit "\textasciitilde{}"
  else if c =? chr "^" then lit "\textasciicircum{}"
  else [c].

(** The characters [escape_latex] replaces. *)
Definition latex_special (c : N) : bool :=
  (c =? BACKSLASH) || (c =? chr "&") || (c =? chr "%") || (c =? chr "$")
  || (c =? chr "#") || (c =? chr "_") || (c =? chr "{") || (c =? chr "}")
  || (c =? chr "~") || (c =? chr "^").

(** The characters that act on the typesetter wherever they stand in a
    table row: the ampersand, which ends a cell, and the percent sign, the
    dollar, the hash and the underscore. *)
Definition is_amp (c : N) : bool := c =? chr "&".
Definition is_other_active (c : N) : bool :=
  (c =? chr "%") || (c =? chr "$") || (c =? chr "#") || (c =? chr "_").
Definition is_active (c : N) : bool := is_amp c || is_other_active c.

(** How many characters of [s] that satisfy [special] are not directly
    preceded by a backslash; [prev] is the character in front of [s]. *)
Fixpoint unescaped (special : N → bool) (prev : N) (s : pystr) : nat :=
  match s with
  | [] => 0%nat
  | c :: s' =>
      Nat.add
        (if special c && negb (prev =? BACKSLASH) then 1%nat else 0%nat)
        (unescaped special c s')
  end.

(** [sep.join(parts)] *)
Fixpoint join (sep : pystr) (parts : list pystr) : pystr :=
  match parts with
  | [] => []
  | [p] => p
  | p :: rest => p ++ sep ++ join sep rest
  end.

(** [[p for p in parts if p]] *)
Definition nonempty (parts : list pystr) : list pystr :=
  filter (λ p, p ≠ []) parts.

Definition COL_STRASSE : pystr := Eval vm_compute in lit "Schüler:in Straße".
Definition COL_HAUSNUMMER : pystr :=
  Eval vm_compute in lit "Schüler:in Hausnummer".
Definition COL_POSTLEITZAHL : pystr :=
  Eval vm_compute in lit "Schüler:in Postleitzahl".
Definition COL_WOHNORT : pystr := Eval vm_compute in lit "Schüler:in Wohnort".
Definition COL_ORTSTEIL : pystr := Eval vm_compute in lit "Schüler:in Ortsteil".
Definition COL_TELEFON : pystr :=
  Eval vm_compute in lit "Schüler:in Telefonnummer Hauptnummer".
Definition COL_TELEFON_WEITERE : pystr :=
  Eval vm_compute in lit "Schüler:in Telefonnummer (weitere)".
Definition COL_EMAIL : pystr :=
  Eval vm_compute in lit "Schüler:in E-Mail-Adresse".
Definition COL_HOECHSTER_ABSCHLUSS : pystr :=
  Eval vm_compute in
    lit "Schüler:in Qualifikation höchster Schulabschluss Kürzel".
Definition COL_LETZTER_ABSCHLUSS : pystr :=
  Eval vm_compute in
    lit "Schüler:in Qualifikation letzter Schulabschluss Kürzel".
Definition COL_UNTERLAGEN : pystr :=
  Eval vm_compute in
    lit "Schüler:in Bewerbung Unterlagen vollständig eingereicht".

Definition COL_BILDUNGSGANG : pystr :=
  Eval vm_compute in lit "Schüler:in Bildungsgang Bezeichnung".

(** [rec.get(field, '').strip()] *)
Definition stripped (rec : record) (field : pystr) : result pystr :=
  match rec_get rec field with
  | None => raise AttributeError
  | Some s => ok (strip s)
  end.

(** The local function [g] of [write_latex_pdf]. *)
Definition g (rec : record) (field : pystr) : result pystr :=
  let* s := stripped rec field in ok (escape_latex (Some s)).

(** The end of a row: two empty cells, the line break and the rule. *)
Definition ROW_END : pystr :=
  lit " & & " ++ [BACKSLASH; BACKSLASH; 10] ++ lit "    \hline".

(** The body of the loop [for rec in records] of [write_latex_pdf]: the
    text appended to [rows]. *)
Definition latex_row (is_fg : bool) (rec : record) : result pystr :=
  let* nachname := g rec COL_NAME in
  let* vorname := g rec COL_VORNAME in
  let name := nachname ++ lit ", " ++ vorname in
  let* gebdat := g rec COL_GEBURTSDATUM in
  let* strasse := g rec COL_STRASSE in
  let* hausnummer := g rec COL_HAUSNUMMER in
  let strasse_nr := strip (strasse ++ lit " " ++ hausnummer) in
  let* plz := g rec COL_POSTLEITZAHL in
  let* wohnort := g rec COL_WOHNORT in
  let plz_ort := strip (plz ++ lit " " ++ wohnort) in
  let* ortsteil := g rec COL_ORTSTEIL in
  let plz_ort :=
    if decide (ortsteil = []) then plz_ort
    else plz_ort ++ lit " " ++ ortsteil in
  let col1 :=
    join (lit " \newline ") (nonempty [name; gebdat; strasse_nr; plz_ort]) in
  let* telefon := g rec COL_TELEFON in
  let* weitere := g rec COL_TELEFON_WEITERE in
  let* email := g rec COL_EMAIL in
  let col2 := join (lit " \newline ") (nonempty [telefon; weitere; email]) in
  let* hoechst := stripped rec COL_HOECHSTER_ABSCHLUSS in
  let* letzt := stripped rec COL_LETZTER_ABSCHLUSS in
  let quali :=
    escape_latex (Some (if decide (hoechst = []) then letzt else hoechst)) in
  let* rang := g rec COL_RANG in
  let* unterlagen := g rec COL_UNTERLAGEN in
  let* foerder := stripped rec COL_FOERDERBEDARF in
  let col3_parts :=
    (if decide (quali = []) then [] else [quali])
    ++ [lit "~"]
    ++ (if decide (rang = []) then [] else [rang])
    ++ (if decide (unterlagen = []) then [] else [unterlagen])
    ++ (if decide (foerder = lit "J") then [lit "Förd.\,X"] else []) in
  let col3 := join (lit " \newline ") col3_parts in
  if is_fg
  then
    let* col_sg := g rec COL_SCHULGLIEDERUNG in
    ok (lit "    " ++ col1 ++ lit " & " ++ col2 ++ lit " & " ++ col3
        ++ lit " & " ++ col_sg ++ ROW_END)
  else
    ok (lit "    " ++ col1 ++ lit " & " ++ col2 ++ lit " & " ++ col3
        ++ ROW_END).

(** The fields [latex_row] reads, in the order in which it reads them. *)
Definition row_fields (is_fg : bool) : list pystr :=
  [ COL_NAME; COL_VORNAME; COL_GEBURTSDATUM; COL_STRASSE; COL_HAUSNUMMER;
    COL_POSTLEITZAHL; COL_WOHNORT; COL_ORTSTEIL; COL_TELEFON;
    COL_TELEFON_WEITERE; COL_EMAIL; COL_HOECHSTER_ABSCHLUSS;
    COL_LETZTER_ABSCHLUSS; COL_RANG; COL_UNTERLAGEN; COL_FOERDERBEDARF ]
  ++ (if is_fg then [COL_SCHULGLIEDERUNG] else []).

(** [bildungsgang.replace("/", "-")] *)
Definition safe_name (bildungsgang : pystr) : pystr :=
  replace_char (chr "/") (lit "-") bildungsgang.

(** The entries [process_csv] appends to [stats], one for each group it has
    gone through: the group key and the number of its rows. *)
Definition group_stats (groups : list (pystr * list record))
  : list (pystr * nat) :=
  map (λ item, (fst item, length (snd item))) groups.

(** [total] of [write_summary_pdf]. *)
Definition summary_total (stats : list (pystr * nat)) : nat :=
  fold_right Nat.add 0%nat (map snd stats).

(** One row of the summary table. *)
Definition summary_row (stat : pystr * nat) : pystr :=
  lit "    " ++ escape_latex (Some (fst stat)) ++ lit " & "
  ++ str_of_nat (snd stat) ++ lit " " ++ [BACKSLASH; BACKSLASH; 10]
  ++ lit "    \hline".

(** [rows_tex] of [write_summary_pdf]. *)
Definition summary_rows (stats : list (pystr * nat)) : pystr :=
  join [10] (map summary_row stats).

(** The sheet [write_xlsx] fills: the header row and the data rows. *)
Definition sheet (F : Type) : Type := list pystr * list (list (xl_value F)).

(** What [write_latex_pdf] puts into its document template: the two texts
    of the head line, whether the table has the column of the school
    structure ([col_spec] and [header_row]), and the rows. *)
Record latex_document : Type := {
  doc_bg_esc : pystr;
  doc_bg_bez : pystr;
  doc_is_fg : bool;
  doc_rows_tex : pystr
}.

(** A file is skipped by [process_csv] when it has no rows or its rows lack
    the column of the answers. *)
Definition skipped (records : list record) : bool :=
  match records with
  | [] => true
  | first :: _ => bool_decide (first !! GRADES_COLUMN = None)
  end.

Section Tables.

Variable py_lower : pystr → pystr.
Variable py_int : pystr → option Z.
Variable F : Type.
Variable py_float : pystr → option F.

(** What the script leaves to its libraries and to the operating system.
    [save_xlsx] is openpyxl's part of [write_xlsx]: the cells of the sheet
    are filled and the workbook is saved under the given path ([ws.cell],
    [wb.save]).  [typeset] is the end of [write_latex_pdf]: the document is
    written next to the given path and handed to [compile_latex], which
    runs the typesetter and says whether the PDF exists.  Either may raise
    (a character openpyxl rejects, a file that cannot be written, a
    typesetter that runs out of time). *)
Variable save_xlsx : pystr → sheet F → result unit.
Variable typeset : pystr → latex_document → result bool.

(** [rows] of [write_latex_pdf]: the rows of the group in the order of the
    print sort. *)
Definition latex_rows (is_fg : bool) (records : list record)
  : result (list pystr) :=
  let* sorted := print_sorted py_lower py_int records in
  mapM (latex_row is_fg) sorted.

(** [write_latex_pdf(records, pdf_path, bildungsgang, verbose, is_fg)]: the
    rows are sorted and typeset one by one, then the head line is made from
    the group key and from the first of the sorted rows, and the document
    goes to the typesetter. *)
Definition write_latex_pdf (records : list record) (pdf_path : pystr)
    (bildungsgang : pystr) (is_fg : bool) : result bool :=
  let* sorted := print_sorted py_lower py_int records in
  let* rows := mapM (latex_row is_fg) sorted in
  let bg_esc := escape_latex (Some bildungsgang) in
  let* bg_bez :=
    match sorted with
    | [] => raise IndexError
    | first :: _ => g first COL_BILDUNGSGANG
    end in
  typeset pdf_path
          {| doc_bg_esc := bg_esc; doc_bg_bez := bg_bez; doc_is_fg := is_fg;
             doc_rows_tex := join [10] rows |}.

(** The body of the loop [for bildungsgang, group_records in
    sorted(groups.items())] of [process_csv]: the rows of the group are
    sorted by name, the sheet is written, the table is printed.  It gives
    the group key and the sorted rows, of which [stats] keeps the number. *)
Definition process_group (item : pystr * list record)
  : result (pystr * list record) :=
  let bildungsgang := fst item in
  let* group_records :=
    sort_with_key (name_key py_lower) pair_leb (snd item) in
  let fg := is_fg bildungsgang in
  let name := safe_name bildungsgang in
  let written := write_xlsx py_int py_float group_records fg in
  let* _ := save_xlsx (name ++ lit ".xlsx") (fst written) in
  let* _ :=
    write_latex_pdf group_records (name ++ lit ".pdf") bildungsgang fg in
  ok (bildungsgang, group_records).

(** [process_csv], from the rows [read_csv] has returned: the groups it has
    gone through, in order, each with its sorted rows.  The [stats] it
    returns are [group_stats] of them.  The lines it prints are left out.
    An exception in the grouping, in a sort or in one of the two writers
    ends the run and is its result. *)
Definition process_csv (records : list record)
  : result (list (pystr * list record)) :=
  match records with
  | [] => ok []
  | first :: _ =>
      if decide (first !! GRADES_COLUMN = None) then ok []
      else
        let* groups := group_loop [] records in
        mapM process_group (sorted_items groups)
  end.

(** [all_stats] of [main] at the end of its loop over the files, given the
    rows of each file. *)
Fixpoint main_stats (files : list (list record))
  : result (list (pystr * nat)) :=
  match files with
  | [] => ok []
  | records :: rest =>
      let* groups := process_csv records in
      let* more := main_stats rest in
      ok (group_stats groups ++ more)
  end.

End Tables.

Arguments sheet F : clear implicits.
Arguments process_group py_lower py_int {F} py_float save_xlsx typeset item.
Arguments process_csv py_lower py_int {F} py_float save_xlsx typeset records.
Arguments main_stats py_lower py_int {F} py_float save_xlsx typeset files.

(** Libraries that raise nothing: every workbook is saved, every document
    is typeset. *)
Definition saved (xlsx_path : pystr) (s : sheet (Z * nat)) : result unit :=
  ok tt.
Definition typeset_done (pdf_path : pystr) (doc : latex_document)
  : result bool :=
  ok true.

(** Fields in which the first line has a key and the separator and nothing
    after it: trimmed, the line ends with the colon. *)
Definition empty_grading_first : pystr :=
  unlines [ BEWERTUNG_KEY ++ lit ": ";
            BEWERTUNG_KEY ++ lit ": entspricht den Erwartungen" ].

Definition empty_grading_of_three : pystr :=
  unlines [ BEWERTUNG_KEY ++ lit ": ";
            BEWERTUNG_KEY ++ lit ": a";
            BEWERTUNG_KEY ++ lit ": b" ].

Definition empty_subject_first : pystr :=
  unlines [ lit "Kunst: "; lit "Kunst: 4" ].





(** A row with the columns of the address, contact and qualification
    cells. *)
Definition address_row : record :=
  <[COL_STRASSE := Some (lit "Markt & Platz")]>
    (<[COL_HAUSNUMMER := Some (lit "5")]>
       (<[COL_EMAIL := Some (lit "a_b@example.org")]>
          (<[COL_FOERDERBEDARF := Some (lit "J")]>
             (<[COL_LETZTER_ABSCHLUSS := Some (lit "HSA")]>
                (make_row (lit "FG/1") (lit "O\Neil") (lit "Zoe") (lit "3")
                          []))))).

(** ** Facts about strings *)

Lemma lstrip_nil_iff (s : pystr) : lstrip s = [] ↔ forallb isspace s = true.
Proof.
  induction s as [|c s IH]; simpl; [done|].
  destruct (isspace c) eqn:E; simpl; [exact IH|]. split; discriminate.
Qed.

Lemma lstrip_head (s : pystr) (c : N) (t : pystr) :
  lstrip s = c :: t → isspace c = false.
Proof.
  induction s as [|d s IH]; simpl; [discriminate|].
  destruct (isspace d) eqn:E; [exact IH|]. intros [= -> _]. exact E.
Qed.

Lemma forallb_rev_space (s : pystr) :
  forallb isspace (rev s) = forallb isspace s.
Proof.
  induction s as [|c s IH]; simpl; [done|].
  rewrite forallb_app, IH. simpl. rewrite andb_true_r. apply andb_comm.
Qed.

Lemma strip_nil_iff (s : pystr) : strip s = [] ↔ forallb isspace s = true.
Proof.
  unfold strip, rstrip. split.
  - intros H. apply (f_equal (@rev N)) in H. rewrite rev_involutive in H.
    simpl in H. apply lstrip_nil_iff in H. rewrite forallb_rev_space in H.
    destruct (lstrip s) as [|c t] eqn:E.
    + by apply lstrip_nil_iff.
    + apply lstrip_head in E. simpl in H. rewrite E in H. discriminate.
  - intros H. apply lstrip_nil_iff in H. by rewrite H.
Qed.

Lemma split_lines_nonempty (s : pystr) : split_lines s ≠ [].
Proof.
  destruct s as [|c s]; simpl; [done|].
  destruct (c =? 10); [done|]. by destruct (split_lines s).
Qed.

Lemma split_lines_app (a b : pystr) :
  split_lines (a ++ 10 :: b) = split_lines a ++ split_lines b.
Proof.
  induction a as [|c a IH]; simpl; [done|].
  destruct (c =? 10) eqn:E; [by rewrite IH|].
  rewrite IH. pose proof (split_lines_nonempty a).
  by destruct (split_lines a).
Qed.

Lemma split_lines_no_newline (line : pystr) :
  no_newline line → split_lines line = [line].
Proof.
  unfold no_newline. induction line as [|c l IH]; simpl; [done|].
  destruct (c =? 10); simpl; [discriminate|]. intros H. by rewrite IH.
Qed.

Lemma split_lines_unlines (l : pystr) (ls : list pystr) :
  Forall no_newline (l :: ls) → split_lines (unlines (l :: ls)) = l :: ls.
Proof.
  revert l. induction ls as [|l' ls IH]; intros l H.
  - apply split_lines_no_newline. by inversion H.
  - change (unlines (l :: l' :: ls)) with (l ++ 10 :: unlines (l' :: ls)).
    inversion H as [|? ? Hl Hls]; subst.
    by rewrite split_lines_app, (split_lines_no_newline _ Hl), (IH _ Hls).
Qed.

Lemma split_lines_space (s : pystr) :
  forallb isspace s = true →
  Forall (λ l, forallb isspace l = true) (split_lines s).
Proof.
  induction s as [|c s IH]; simpl; [by repeat constructor|].
  intros [Hc Hs]%andb_true_iff. specialize (IH Hs).
  destruct (c =? 10); [by constructor|].
  destruct (split_lines s) as [|l ls]; [by repeat constructor; simpl; rewrite Hc|].
  inversion IH; subst. constructor; [|done]. simpl. by rewrite Hc.
Qed.

Lemma parse_line_blank (line : pystr) :
  forallb isspace line = true → parse_line line = None.
Proof.
  intros H. apply strip_nil_iff in H. unfold parse_line. by rewrite H.
Qed.

Lemma contains_sep_cons (c : N) (s : pystr) :
  contains_sep s = true → contains_sep (c :: s) = true.
Proof. destruct s as [|d s]; simpl; [done|]. intros ->. apply orb_true_r. Qed.

Lemma contains_sep_app (a t : pystr) :
  contains_sep a = true → contains_sep (a ++ t) = true.
Proof.
  induction a as [|c a IH]; [done|].
  destruct a as [|d a]; [done|].
  change (contains_sep (c :: d :: a))
    with (((c =? 58) && (d =? 32)) || contains_sep (d :: a)).
  change (contains_sep ((c :: d :: a) ++ t))
    with (((c =? 58) && (d =? 32)) || contains_sep ((d :: a) ++ t)).
  intros [->|H]%orb_true_iff; [done|]. rewrite (IH H). apply orb_true_r.
Qed.

Lemma lstrip_suffix (s : pystr) : ∃ u, s = u ++ lstrip s.
Proof.
  induction s as [|c s [u IH]]; simpl; [by exists []|].
  destruct (isspace c); [|by exists []]. exists (c :: u). simpl. by f_equal.
Qed.

Lemma contains_sep_lstrip (s : pystr) :
  contains_sep (lstrip s) = true → contains_sep s = true.
Proof.
  induction s as [|c s IH]; [done|]. cbn [lstrip].
  destruct (isspace c); [|done]. intros H. by apply contains_sep_cons, IH.
Qed.

(** Trimming a line does not bring in a separator. *)
Lemma contains_sep_strip (line : pystr) :
  contains_sep line = false → contains_sep (strip line) = false.
Proof.
  intros H. apply not_true_is_false. intros Hs.
  apply not_true_iff_false in H. apply H. clear H.
  apply contains_sep_lstrip. unfold strip, rstrip in Hs.
  destruct (lstrip_suffix (rev (lstrip line))) as [u Hu].
  apply (f_equal (@rev N)) in Hu. rewrite rev_involutive, rev_app_distr in Hu.
  rewrite Hu. by apply contains_sep_app.
Qed.

Lemma raw_pairs_blank (s : pystr) : strip s = [] → raw_pairs s = [].
Proof.
  intros H%strip_nil_iff%split_lines_space. unfold raw_pairs.
  induction H as [|l ls Hl _ IH]; simpl; [done|].
  by rewrite (parse_line_blank _ Hl).
Qed.

Lemma raw_pairs_unlines (ls : list pystr) :
  Forall no_newline ls → raw_pairs (unlines ls) = omap parse_line ls.
Proof.
  intros H. unfold raw_pairs. destruct ls as [|l ls]; [done|].
  by rewrite split_lines_unlines.
Qed.

(** ** The loop computes the numbering rule *)

Lemma occurrences_app (k : pystr) (a b : list pystr) :
  occurrences k (a ++ b) = (occurrences k a + occurrences k b)%nat.
Proof. unfold occurrences. by rewrite filter_app, length_app. Qed.

Lemma occurrences_single (k k' : pystr) :
  occurrences k [k'] = if decide (k' = k) then 1%nat else 0%nat.
Proof.
  unfold occurrences. rewrite filter_cons, filter_nil.
  by destruct (decide (k' = k)).
Qed.

Lemma parse_step_skip (st : parse_state) (line : pystr) :
  parse_line line = None → parse_step st line = st.
Proof.
  destruct st as [results seen]. unfold parse_line, parse_step. simpl.
  destruct (bool_decide (strip line = []) || negb (contains_sep (strip line)));
    [done|].
  by destruct (split_sep (strip line)).
Qed.

Lemma parse_step_entry (results : list (pystr * answer_value))
    (seen : gmap pystr nat) (line key value : pystr) :
  parse_line line = Some (key, value) →
  parse_step (results, seen) line =
    (results ++ [entry key (S (default 0%nat (seen !! key))) value],
     <[key := S (default 0%nat (seen !! key))]> seen).
Proof.
  unfold parse_line, parse_step, entry. simpl.
  destruct (bool_decide (strip line = []) || negb (contains_sep (strip line)));
    [discriminate|].
  destruct (split_sep (strip line)) as [k v]. intros [= <- <-].
  rewrite Nat.add_1_r. by destruct (decide (strip k = BEWERTUNG_KEY)).
Qed.

Lemma parse_loop (lines : list pystr) :
  ∀ (results : list (pystr * answer_value)) (seen : gmap pystr nat)
    (before : list pystr),
    (∀ k, default 0%nat (seen !! k) = occurrences k before) →
    fst (fold_left parse_step lines (results, seen)) =
      results ++ label before (omap parse_line lines).
Proof.
  induction lines as [|line lines IH]; intros results seen before Hseen;
    cbn [fold_left omap list_omap].
  - simpl. by rewrite app_nil_r.
  - destruct (parse_line line) as [[key value]|] eqn:E.
    + rewrite (parse_step_entry _ _ _ _ _ E).
      rewrite (IH _ _ (before ++ [key])).
      * cbn [label]. rewrite <- app_assoc. simpl. by rewrite Hseen.
      * intros k. rewrite occurrences_app, occurrences_single.
        destruct (decide (key = k)) as [->|Hne].
        -- rewrite lookup_insert_eq. simpl. rewrite Hseen. lia.
        -- rewrite lookup_insert_ne by done. rewrite Hseen. lia.
    + rewrite (parse_step_skip _ _ E). by apply IH.
Qed.

(** [parse_answers] numbers the parsed lines of its argument. *)
Lemma parse_answers_label (s : pystr) :
  parse_answers (Some s) = label [] (raw_pairs s).
Proof.
  unfold parse_answers.
  destruct (bool_decide (s = []) || bool_decide (strip s = [])) eqn:E.
  - rewrite raw_pairs_blank; [done|].
    apply orb_true_iff in E as [E|E]; apply bool_decide_eq_true in E;
      [by subst|done].
  - rewrite (parse_loop _ [] ∅ []); [done|].
    intros k. by rewrite lookup_empty.
Qed.

Lemma label_length (kvs : list (pystr * pystr)) :
  ∀ before, length (label before kvs) = length kvs.
Proof.
  induction kvs as [|[k v] kvs IH]; intros before; simpl; [done|].
  by rewrite IH.
Qed.

Lemma occurrences_take_S (keys : list pystr) (i : nat) (k : pystr) :
  keys !! i = Some k →
  occurrences k (take (S i) keys) = S (occurrences k (take i keys)).
Proof.
  intros H. rewrite (take_S_r _ _ _ H), occurrences_app, occurrences_single.
  rewrite decide_True by done. lia.
Qed.

Lemma label_lookup (kvs : list (pystr * pystr)) :
  ∀ (before : list pystr) (i : nat) (k v : pystr),
    kvs !! i = Some (k, v) →
    label before kvs !! i =
      Some (entry k (S (occurrences k (before ++ take i kvs.*1))) v).
Proof.
  induction kvs as [|[k0 v0] kvs IH]; intros before i k v H; [done|].
  destruct i as [|i]; simpl in *.
  - injection H as -> ->. by rewrite app_nil_r.
  - rewrite (IH _ _ _ _ H). by rewrite <- app_assoc.
Qed.

(** The entry at position [i] of the output comes from the [i]th parsed line
    and carries the number of occurrences of its key up to that line. *)
Lemma parse_answers_lookup (s : pystr) (i : nat) (k v : pystr) :
  raw_pairs s !! i = Some (k, v) →
  parse_answers (Some s) !! i =
    Some (entry k (occurrences k (take (S i) (raw_pairs s).*1)) v).
Proof.
  intros H. rewrite parse_answers_label, (label_lookup _ _ _ _ _ H). simpl.
  rewrite occurrences_take_S; [done|].
  by rewrite list_lookup_fmap, H.
Qed.

Lemma parse_answers_length (s : pystr) :
  length (parse_answers (Some s)) = length (raw_pairs s).
Proof. rewrite parse_answers_label. apply label_length. Qed.

Lemma entry_other (key : pystr) (count : nat) (value : pystr) :
  key ≠ BEWERTUNG_KEY →
  entry key count value =
    ((if decide (count = 1%nat) then key else numbered key count), Text value).
Proof. intros H. unfold entry. by rewrite decide_False. Qed.

Lemma entry_grading (count : nat) (value : pystr) :
  entry BEWERTUNG_KEY count value =
    (BEWERTUNG_RENAME count (numbered (lit "Bewertung") count),
     bewertung_wert value).
Proof. unfold entry. by rewrite decide_True. Qed.

(** ** Lines that are not counted *)

Lemma lstrip_spaces_app (sp x : pystr) :
  forallb isspace sp = true → lstrip (sp ++ x) = lstrip x.
Proof.
  induction sp as [|c sp IH]; [done|]. cbn [forallb app lstrip].
  intros [-> H]%andb_true_iff. by apply IH.
Qed.

Lemma lstrip_app (a w : pystr) :
  lstrip a ≠ [] → lstrip (a ++ w) = lstrip a ++ w.
Proof.
  induction a as [|c a IH]; [done|]. cbn [app lstrip].
  destruct (isspace c); [exact IH|done].
Qed.

(** White space at the end of a text does not change what is left of it
    once trimmed. *)
Lemma strip_app_spaces (a w : pystr) :
  forallb isspace w = true → strip (a ++ w) = strip a.
Proof.
  intros Hw. destruct (lstrip a) as [|c t] eqn:Ea.
  - assert (strip a = []) as ->.
    { apply strip_nil_iff. by apply lstrip_nil_iff. }
    apply strip_nil_iff. rewrite forallb_app, Hw, andb_true_r.
    by apply lstrip_nil_iff.
  - unfold strip, rstrip. rewrite lstrip_app by (by rewrite Ea).
    rewrite rev_app_distr, lstrip_spaces_app; [done|].
    by rewrite forallb_rev_space.
Qed.

Lemma contains_sep_colon (key : pystr) :
  contains_sep key = false → contains_sep (key ++ [58]) = false.
Proof.
  induction key as [|c key IH]; [done|].
  destruct key as [|d key].
  - intros _. cbn. destruct (c =? 58); reflexivity.
  - change (contains_sep (c :: d :: key))
      with (((c =? 58) && (d =? 32)) || contains_sep (d :: key)).
    change (contains_sep ((c :: d :: key) ++ [58]))
      with (((c =? 58) && (d =? 32)) || contains_sep ((d :: key) ++ [58])).
    intros [-> H]%orb_false_iff. by apply IH.
Qed.

(** A line that has nothing but white space after its separator has no
    separator left once it is trimmed, and is skipped. *)
Lemma parse_line_empty_value (key w : pystr) :
  contains_sep key = false →
  forallb isspace w = true →
  contains_sep (strip (key ++ lit ": " ++ w)) = false
  ∧ parse_line (key ++ lit ": " ++ w) = None.
Proof.
  intros Hkey Hw.
  assert (contains_sep (strip (key ++ lit ": " ++ w)) = false) as Hsep.
  { change (key ++ lit ": " ++ w) with (key ++ [58] ++ 32 :: w).
    rewrite app_assoc, strip_app_spaces by (cbn [forallb]; by rewrite Hw).
    by apply contains_sep_strip, contains_sep_colon. }
  split; [done|]. unfold parse_line. rewrite Hsep. cbn [negb].
  by rewrite orb_true_r.
Qed.

(** A skipped line leaves the parsed lines, and with them the result, as if
    it were not there. *)
Lemma skipped_line (before after : list pystr) (line : pystr) :
  Forall no_newline (before ++ line :: after) →
  parse_line line = None →
  raw_pairs (unlines (before ++ line :: after))
  = raw_pairs (unlines (before ++ after))
  ∧ parse_answers (Some (unlines (before ++ line :: after)))
    = parse_answers (Some (unlines (before ++ after))).
Proof.
  intros Hnl Hline.
  assert (Forall no_newline (before ++ after)) as Hnl'.
  { apply Forall_app in Hnl as [H1 H2]. apply Forall_app. split; [done|].
    by inversion H2. }
  assert (raw_pairs (unlines (before ++ line :: after))
          = raw_pairs (unlines (before ++ after))) as Hraw.
  { rewrite (raw_pairs_unlines _ Hnl), (raw_pairs_unlines _ Hnl').
    rewrite !omap_app. cbn [omap list_omap]. by rewrite Hline. }
  split; [done|]. by rewrite !parse_answers_label, Hraw.
Qed.

(** ** The answer parser: claims C1, C5 and C6 *)

(** C1 (as amended).  The lines of a field that count are those that still
    hold the separator once they are trimmed.  When such a line has the
    grading key and is the [n]th of them that has it, [n >= 3], the column
    name of its entry is the word [Bewertung] followed by [ (n)]; it is not
    built from the raw key.  A grading line with nothing but white space
    after its separator is not among them: the parsed lines and the result
    are the same without it. *)
Theorem grading_key_third_onwards :
  (∀ (s : pystr) (i n : nat) (value : pystr),
     raw_pairs s !! i = Some (BEWERTUNG_KEY, value) →
     occurrences BEWERTUNG_KEY (take (S i) (raw_pairs s).*1) = n →
     (3 ≤ n)%nat →
     fst <$> parse_answers (Some s) !! i
       = Some (lit "Bewertung" ++ lit " (" ++ str_of_nat n ++ lit ")"))
  ∧ (∀ (before after : list pystr) (w : pystr),
       Forall no_newline
              (before ++ (BEWERTUNG_KEY ++ lit ": " ++ w) :: after) →
       forallb isspace w = true →
       raw_pairs
         (unlines (before ++ (BEWERTUNG_KEY ++ lit ": " ++ w) :: after))
       = raw_pairs (unlines (before ++ after))
       ∧ parse_answers
           (Some (unlines
                    (before ++ (BEWERTUNG_KEY ++ lit ": " ++ w) :: after)))
         = parse_answers (Some (unlines (before ++ after)))).
Proof.
  split.
  - intros s i n value H Hn Hge.
    rewrite (parse_answers_lookup _ _ _ _ H), Hn.
    rewrite entry_grading. simpl.
    destruct n as [|[|[|n]]]; try lia. reflexivity.
  - intros before after w Hnl Hw. apply skipped_line; [done|].
    by apply parse_line_empty_value.
Qed.

(** C5 (as amended).  Among the lines that still hold the separator once
    they are trimmed, a line whose raw key is the grading key gets the
    column name [AV] when it is the first such line of the field and [SV]
    when it is the second; its value becomes 10, 20, 30, 40 or 50 when the
    trimmed value is the corresponding grading phrase, and stays the trimmed
    text when it is none of the five.  A grading line with nothing but white
    space after its separator is not among them: the parsed lines and the
    result are the same without it. *)
Theorem grading_key_entry :
  (∀ (s : pystr) (i : nat) (value : pystr),
     raw_pairs s !! i = Some (BEWERTUNG_KEY, value) →
     ∃ (col_name : pystr) (v : answer_value),
       parse_answers (Some s) !! i = Some (col_name, v)
       ∧ (occurrences BEWERTUNG_KEY (take (S i) (raw_pairs s).*1) = 1%nat →
          col_name = lit "AV")
       ∧ (occurrences BEWERTUNG_KEY (take (S i) (raw_pairs s).*1) = 2%nat →
          col_name = lit "SV")
       ∧ (value = lit "verdient besondere Anerkennung" → v = Number 10)
       ∧ (value = lit "entspricht den Erwartungen in vollem Umfang" →
          v = Number 20)
       ∧ (value = lit "entspricht den Erwartungen" → v = Number 30)
       ∧ (value = lit "entspricht den Erwartungen mit Einschränkungen" →
          v = Number 40)
       ∧ (value = lit "entspricht nicht den Erwartungen" → v = Number 50)
       ∧ (value ∉ BEWERTUNG_WERTE.*1 → v = Text value))
  ∧ (∀ (before after : list pystr) (w : pystr),
       Forall no_newline
              (before ++ (BEWERTUNG_KEY ++ lit ": " ++ w) :: after) →
       forallb isspace w = true →
       raw_pairs
         (unlines (before ++ (BEWERTUNG_KEY ++ lit ": " ++ w) :: after))
       = raw_pairs (unlines (before ++ after))
       ∧ parse_answers
           (Some (unlines
                    (before ++ (BEWERTUNG_KEY ++ lit ": " ++ w) :: after)))
         = parse_answers (Some (unlines (before ++ after)))).
Proof.
  split.
  - intros s i value H. eexists _, _. split.
    { rewrite (parse_answers_lookup _ _ _ _ H), entry_grading. reflexivity. }
    repeat split.
    + by intros ->.
    + by intros ->.
    + by intros ->.
    + by intros ->.
    + by intros ->.
    + by intros ->.
    + by intros ->.
    + intros Hnot. unfold bewertung_wert.
      assert (∀ d : list (pystr * Z), value ∉ d.*1 → assoc_get d value = None)
        as Hget.
      { induction d as [|[k n] d IH]; simpl; [done|]. intros Hd.
        destruct (decide (k = value)) as [->|_].
        - exfalso. apply Hd. by left.
        - apply IH. intros Hin. apply Hd. by right. }
      by rewrite (Hget _ Hnot).
  - intros before after w Hnl Hw. apply skipped_line; [done|].
    by apply parse_line_empty_value.
Qed.

(** C6 (as amended).  An absent, empty or blank field gives the empty list.
    A line that has no separator left once it is trimmed (it has none at
    all, or it has nothing but white space after its separator) is
    discarded and not counted: the result is as if the line were not there,
    whatever lines stand before and after it.  Among the other lines, taken
    in line order, one whose raw key is not the grading key gives the raw
    key as column name when it is the first with that key and [key (n)]
    when it is the [n]th, with its trimmed value as text; there is one entry
    for each of these lines. *)
Theorem parse_answers_numbering :
  parse_answers None = []
  ∧ (∀ s : pystr, strip s = [] → parse_answers (Some s) = [])
  ∧ (∀ (before after : list pystr) (line : pystr),
       Forall no_newline (before ++ line :: after) →
       contains_sep line = false ∨ contains_sep (strip line) = false →
       parse_answers (Some (unlines (before ++ line :: after)))
         = parse_answers (Some (unlines (before ++ after))))
  ∧ (∀ key w : pystr,
       contains_sep key = false →
       forallb isspace w = true →
       contains_sep (strip (key ++ lit ": " ++ w)) = false)
  ∧ (∀ (s : pystr) (i : nat) (key value : pystr),
       raw_pairs s !! i = Some (key, value) →
       key ≠ BEWERTUNG_KEY →
       let n := occurrences key (take (S i) (raw_pairs s).*1) in
       (1 ≤ n)%nat
       ∧ parse_answers (Some s) !! i
           = Some ((if decide (n = 1%nat) then key
                    else key ++ lit " (" ++ str_of_nat n ++ lit ")"),
                   Text value))
  ∧ (∀ s : pystr, length (parse_answers (Some s)) = length (raw_pairs s)).
Proof.
  split; [done|]. split.
  { intros s Hs. by rewrite parse_answers_label, raw_pairs_blank. }
  split.
  { intros before after line Hnl Hsep. apply skipped_line; [done|].
    assert (contains_sep (strip line) = false) as Hsep'.
    { destruct Hsep as [Hsep|Hsep]; [by apply contains_sep_strip|done]. }
    unfold parse_line. rewrite Hsep'. simpl. by rewrite orb_true_r. }
  split.
  { intros key w Hkey Hw. by apply parse_line_empty_value. }
  split.
  { intros s i key value H Hne n. subst n.
    rewrite (parse_answers_lookup _ _ _ _ H), (entry_other _ _ _ Hne).
    split; [|done].
    rewrite (occurrences_take_S _ _ key); [lia|].
    by rewrite list_lookup_fmap, H. }
  apply parse_answers_length.
Qed.

(** ** Column names within one record: claim C3 *)

Lemma str_of_nat_inj (a b : nat) : str_of_nat a = str_of_nat b → a = b.
Proof.
  unfold str_of_nat. intros H.
  apply (f_equal (map ascii_of_N)) in H.
  rewrite !map_map in H.
  assert (∀ l, map (λ x, ascii_of_N (N_of_ascii x)) l = l) as Hid.
  { intros l. rewrite <- (map_id l) at 2. apply map_ext.
    intros c. apply ascii_N_embedding. }
  rewrite !Hid in H.
  apply (f_equal String.string_of_list_ascii) in H.
  rewrite !String.string_of_list_ascii_of_string in H.
  apply (f_equal NilEmpty.uint_of_string) in H.
  rewrite !NilEmpty.usu in H. injection H as H.
  by apply DecimalNat.Unsigned.to_uint_inj.
Qed.

Lemma str_of_nat_digits (n : nat) : Forall (λ c, 48 ≤ c ≤ 57) (str_of_nat n).
Proof.
  unfold str_of_nat. generalize (Nat.to_uint n). intros d.
  induction d; simpl; constructor; try done; vm_compute; split; discriminate.
Qed.

Lemma app_pivot_l (x : N) (l1 l2 r1 r2 : pystr) :
  x ∉ l1 → x ∉ l2 → l1 ++ x :: r1 = l2 ++ x :: r2 → l1 = l2 ∧ r1 = r2.
Proof.
  revert l2. induction l1 as [|a l1 IH]; intros [|b l2] H1 H2 H; simpl in *.
  - by injection H.
  - injection H as -> _. exfalso. apply H2. by left.
  - injection H as -> _. exfalso. apply H1. by left.
  - injection H as -> H.
    destruct (IH l2) as [-> ->]; [| |done|done].
    + intros Hin. apply H1. by right.
    + intros Hin. apply H2. by right.
Qed.

Lemma app_pivot_r (x : N) (l1 l2 r1 r2 : pystr) :
  x ∉ r1 → x ∉ r2 → l1 ++ x :: r1 = l2 ++ x :: r2 → l1 = l2 ∧ r1 = r2.
Proof.
  intros H1 H2 H. apply (f_equal (@rev N)) in H.
  rewrite !rev_app_distr in H. simpl in H. rewrite <- !app_assoc in H.
  simpl in H. apply app_pivot_l in H as [Hr Hl].
  - split; apply rev_inj; done.
  - by rewrite list_elem_of_In, <- in_rev, <- list_elem_of_In.
  - by rewrite list_elem_of_In, <- in_rev, <- list_elem_of_In.
Qed.

Lemma numbered_unfold (name : pystr) (count : nat) :
  numbered name count = (name ++ [32]) ++ 40 :: (str_of_nat count ++ [41]).
Proof. unfold numbered. by rewrite <- app_assoc. Qed.

Lemma paren_not_in_digits (count : nat) : 40 ∉ str_of_nat count ++ [41].
Proof.
  intros [H|H]%elem_of_app.
  - pose proof (str_of_nat_digits count) as Hd.
    rewrite Forall_forall in Hd. apply Hd in H. lia.
  - apply list_elem_of_singleton in H. discriminate.
Qed.

Lemma numbered_inj (k1 k2 : pystr) (n1 n2 : nat) :
  numbered k1 n1 = numbered k2 n2 → k1 = k2 ∧ n1 = n2.
Proof.
  rewrite !numbered_unfold. intros H.
  apply app_pivot_r in H as [Hk Hn]; try apply paren_not_in_digits.
  apply app_inj_tail in Hk as [-> _]. apply app_inj_tail in Hn as [Hn _].
  split; [done|]. by apply str_of_nat_inj.
Qed.

Lemma last_numbered (name : pystr) (count : nat) :
  last (numbered name count) = Some 41.
Proof.
  rewrite numbered_unfold.
  change (40 :: (str_of_nat count ++ [41]))
    with ((40 :: str_of_nat count) ++ [41]).
  by rewrite app_assoc, last_snoc.
Qed.

Lemma numbered_longer (name : pystr) (count : nat) :
  numbered name count ≠ name.
Proof.
  intros H. apply (f_equal length) in H. unfold numbered in H.
  rewrite !length_app in H. simpl in H. lia.
Qed.

(** The column name of an entry tells the occurrence of its key. *)
Lemma entry_name_count (k : pystr) (c1 c2 : nat) (v1 v2 : pystr) :
  (1 ≤ c1)%nat → (1 ≤ c2)%nat →
  fst (entry k c1 v1) = fst (entry k c2 v2) → c1 = c2.
Proof.
  intros H1 H2. unfold entry. destruct (decide (k = BEWERTUNG_KEY)); simpl.
  - destruct c1 as [|[|[|c1]]], c2 as [|[|[|c2]]]; try lia; try done;
      unfold BEWERTUNG_RENAME; intros H;
      try (by apply numbered_inj in H as [_ ?]);
      apply (f_equal last) in H; rewrite last_numbered in H; discriminate.
  - destruct (decide (c1 = 1%nat)), (decide (c2 = 1%nat)); intros H.
    + lia.
    + symmetry in H. by apply numbered_longer in H.
    + by apply numbered_longer in H.
    + by apply numbered_inj in H as [_ ?].
Qed.

Lemma plain_grading_key : plain_key BEWERTUNG_KEY.
Proof. repeat split; discriminate. Qed.

(** On plain keys the column name tells the key as well. *)
Lemma entry_name_inj (k1 k2 : pystr) (c1 c2 : nat) (v1 v2 : pystr) :
  plain_key k1 → plain_key k2 → (1 ≤ c1)%nat → (1 ≤ c2)%nat →
  fst (entry k1 c1 v1) = fst (entry k2 c2 v2) → k1 = k2 ∧ c1 = c2.
Proof.
  intros (Ha1 & Hs1 & Hb1 & Hl1) (Ha2 & Hs2 & Hb2 & Hl2) H1 H2 H.
  assert (∀ (k : pystr) (c : nat) (v : pystr),
             k ≠ BEWERTUNG_KEY →
             fst (entry k c v) = k ∨ fst (entry k c v) = numbered k c) as Hother.
  { intros k c v Hk. rewrite (entry_other _ _ _ Hk). simpl.
    destruct (decide (c = 1%nat)); auto. }
  assert (∀ (c : nat) (v : pystr),
             fst (entry BEWERTUNG_KEY c v) = lit "AV"
             ∨ fst (entry BEWERTUNG_KEY c v) = lit "SV"
             ∨ fst (entry BEWERTUNG_KEY c v) = numbered (lit "Bewertung") c)
    as Hgrading.
  { intros c v. rewrite entry_grading. simpl.
    destruct c as [|[|[|c]]]; auto. }
  assert (∀ (k : pystr) (c : nat) (v : pystr) (c' : nat) (v' : pystr),
             k ≠ BEWERTUNG_KEY → k ≠ lit "AV" → k ≠ lit "SV" →
             k ≠ lit "Bewertung" → last k ≠ Some 41 →
             fst (entry BEWERTUNG_KEY c' v') ≠ fst (entry k c v)) as Hmixed.
  { intros k c v c' v' Hk Ha Hs Hb Hl Heq.
    destruct (Hgrading c' v') as [Hg|[Hg|Hg]], (Hother k c v Hk) as [Ho|Ho];
      rewrite Hg, Ho in Heq.
    - by apply Ha.
    - apply (f_equal last) in Heq. rewrite last_numbered in Heq. discriminate.
    - by apply Hs.
    - apply (f_equal last) in Heq. rewrite last_numbered in Heq. discriminate.
    - apply Hl. by rewrite <- Heq, last_numbered.
    - apply numbered_inj in Heq as [Heq _]. by apply Hb. }
  destruct (decide (k1 = BEWERTUNG_KEY)) as [->|Hk1],
           (decide (k2 = BEWERTUNG_KEY)) as [->|Hk2].
  - split; [done|]. by apply (entry_name_count _ _ _ _ _ H1 H2 H).
  - exfalso. by apply (Hmixed k2 c2 v2 c1 v1).
  - exfalso. by apply (Hmixed k1 c1 v1 c2 v2).
  - destruct (Hother k1 c1 v1 Hk1) as [Ho1|Ho1],
             (Hother k2 c2 v2 Hk2) as [Ho2|Ho2];
      pose proof H as H'; rewrite Ho1, Ho2 in H'.
    + subst k2. split; [done|]. by apply (entry_name_count _ _ _ _ _ H1 H2 H).
    + exfalso. apply Hl1. by rewrite H', last_numbered.
    + exfalso. apply Hl2. by rewrite <- H', last_numbered.
    + by apply numbered_inj.
Qed.

Lemma label_snoc (kvs : list (pystr * pystr)) :
  ∀ (before : list pystr) (k v : pystr),
    label before (kvs ++ [(k, v)]) =
      label before kvs
      ++ [entry k (S (occurrences k (before ++ kvs.*1))) v].
Proof.
  induction kvs as [|[k0 v0] kvs IH]; intros before k v; simpl.
  - by rewrite app_nil_r.
  - by rewrite IH, <- app_assoc.
Qed.

Lemma occurrences_take_le (k : pystr) (keys : list pystr) (i j : nat) :
  (i ≤ j)%nat → (occurrences k (take i keys) ≤ occurrences k (take j keys))%nat.
Proof.
  intros Hij. rewrite <- (take_drop i (take j keys)), occurrences_app.
  rewrite take_take, Nat.min_l by done. lia.
Qed.

Lemma occurrences_take_all (k : pystr) (keys : list pystr) (i : nat) :
  (occurrences k (take i keys) ≤ occurrences k keys)%nat.
Proof.
  rewrite <- (take_drop i keys) at 2. rewrite occurrences_app. lia.
Qed.

(** Every name in the output belongs to a parsed key and to one of that
    key's occurrences. *)
Lemma label_names (kvs : list (pystr * pystr)) (name : pystr) :
  name ∈ (label [] kvs).*1 →
  ∃ (k : pystr) (c : nat) (v : pystr),
    name = fst (entry k c v) ∧ k ∈ kvs.*1
    ∧ (1 ≤ c ≤ occurrences k kvs.*1)%nat.
Proof.
  intros [[n a] [-> Hin]]%list_elem_of_fmap.
  apply list_elem_of_lookup in Hin as [i Hi].
  assert (i < length kvs)%nat as Hlt.
  { rewrite <- (label_length kvs []). by apply lookup_lt_Some in Hi. }
  destruct (lookup_lt_is_Some_2 _ _ Hlt) as [[k v] Hkv].
  rewrite (label_lookup _ _ _ _ _ Hkv) in Hi. injection Hi as Hi.
  assert (kvs.*1 !! i = Some k) as Hk by (by rewrite list_lookup_fmap, Hkv).
  exists k, (S (occurrences k (take i kvs.*1))), v. simpl in Hi.
  split; [by rewrite <- Hi|]. split; [by apply list_elem_of_lookup_2 in Hk|].
  rewrite <- (occurrences_take_S _ _ _ Hk).
  pose proof (occurrences_take_all k kvs.*1 (S i)).
  rewrite (occurrences_take_S _ _ _ Hk) in *. lia.
Qed.

Lemma label_NoDup (kvs : list (pystr * pystr)) :
  Forall plain_key kvs.*1 → NoDup (label [] kvs).*1.
Proof.
  induction kvs as [|[k v] kvs IH] using rev_ind; [constructor|].
  rewrite fmap_app, Forall_app. intros [Hkvs Hk]. simpl in Hk.
  apply Forall_inv in Hk.
  rewrite label_snoc, fmap_app. simpl. apply NoDup_app.
  split; [by apply IH|]. split; [|apply NoDup_singleton].
  intros name Hin Hnew. apply list_elem_of_singleton in Hnew.
  apply label_names in Hin as (k' & c & v' & -> & Hk' & Hc).
  rewrite Forall_forall in Hkvs. simpl in Hnew.
  apply entry_name_inj in Hnew as [Hkk Hcc].
  - subst k'. lia.
  - by apply Hkvs.
  - done.
  - lia.
  - lia.
Qed.

Lemma same_key_names_lt (s : pystr) (i j : nat) (k v v' : pystr) :
  (i < j)%nat →
  raw_pairs s !! i = Some (k, v) → raw_pairs s !! j = Some (k, v') →
  fst <$> parse_answers (Some s) !! i ≠ fst <$> parse_answers (Some s) !! j.
Proof.
  intros Hij Hi Hj.
  rewrite (parse_answers_lookup _ _ _ _ Hi), (parse_answers_lookup _ _ _ _ Hj).
  simpl. intros [= H].
  assert ((raw_pairs s).*1 !! i = Some k) as Hki
    by (by rewrite list_lookup_fmap, Hi).
  assert ((raw_pairs s).*1 !! j = Some k) as Hkj
    by (by rewrite list_lookup_fmap, Hj).
  pose proof (occurrences_take_le k (raw_pairs s).*1 (S i) j) as Hle.
  rewrite (occurrences_take_S _ _ _ Hki) in *.
  rewrite (occurrences_take_S _ _ _ Hkj) in *.
  apply entry_name_count in H; lia.
Qed.

(** C3 (as amended).  The entries that one raw key gives rise to have
    pairwise distinct column names, and all column names of a record are
    pairwise distinct when no raw key is [AV], [SV] or [Bewertung] or ends
    with a closing parenthesis. *)
Theorem column_names_distinct (s : pystr) :
  (∀ (i j : nat) (k v v' : pystr),
     i ≠ j →
     raw_pairs s !! i = Some (k, v) → raw_pairs s !! j = Some (k, v') →
     fst <$> parse_answers (Some s) !! i ≠ fst <$> parse_answers (Some s) !! j)
  ∧ (Forall plain_key (raw_pairs s).*1 → NoDup (parse_answers (Some s)).*1).
Proof.
  split.
  - intros i j k v v' Hij Hi Hj.
    destruct (Nat.lt_total i j) as [Hlt|[Heq|Hgt]]; [|done|].
    + by apply (same_key_names_lt s i j k v v').
    + intros H. symmetry in H. revert H.
      by apply (same_key_names_lt s j i k v' v).
  - intros H. rewrite parse_answers_label. by apply label_NoDup.
Qed.

(** ** Sorting *)

Section StableSort.
Context {A : Type} (le : A → A → bool).
Hypothesis le_total : ∀ x y, le x y = false → le y x = true.
Hypothesis le_trans : ∀ x y z, le x y = true → le y z = true → le x z = true.

Lemma insert_by_perm (x : A) (l : list A) : insert_by le x l ≡ₚ x :: l.
Proof.
  induction l as [|y l IH]; simpl; [done|].
  destruct (le x y); [done|]. rewrite IH. apply perm_swap.
Qed.

Lemma stable_sort_perm (l : list A) : stable_sort le l ≡ₚ l.
Proof.
  induction l as [|x l IH]; simpl; [done|].
  by rewrite insert_by_perm, IH.
Qed.

Lemma insert_by_sorted (x : A) (l : list A) :
  StronglySorted (λ a b, le a b = true) l →
  StronglySorted (λ a b, le a b = true) (insert_by le x l).
Proof.
  induction 1 as [|y l Hl IH Hy]; simpl; [by repeat constructor|].
  destruct (le x y) eqn:E.
  - constructor; [by constructor|]. constructor; [done|].
    eapply Forall_impl; [exact Hy|]. intros z Hz. by eapply le_trans.
  - constructor; [done|].
    rewrite insert_by_perm. constructor; [by apply le_total|done].
Qed.

Lemma stable_sort_sorted (l : list A) :
  StronglySorted (λ a b, le a b = true) (stable_sort le l).
Proof.
  induction l as [|x l IH]; simpl; [constructor|].
  by apply insert_by_sorted.
Qed.

(** Elements that the order does not tell apart keep their order. *)
Lemma insert_by_filter (P : A → Prop) `{∀ x, Decision (P x)}
    (x : A) (l : list A) :
  (∀ y z, P y → P z → le y z = true) →
  filter P (insert_by le x l) = filter P (x :: l).
Proof.
  intros Htie. induction l as [|y l IH]; simpl; [done|].
  destruct (le x y) eqn:E; [done|].
  rewrite filter_cons, IH, !filter_cons.
  destruct (decide (P y)) as [Hy|Hy]; [|done].
  destruct (decide (P x)) as [Hx|Hx]; [|done].
  rewrite (Htie x y Hx Hy) in E. discriminate.
Qed.

Lemma stable_sort_filter (P : A → Prop) `{∀ x, Decision (P x)}
    (l : list A) :
  (∀ y z, P y → P z → le y z = true) →
  filter P (stable_sort le l) = filter P l.
Proof.
  intros Htie. induction l as [|x l IH]; simpl; [done|].
  rewrite insert_by_filter by done. by rewrite !filter_cons, IH.
Qed.
End StableSort.

Lemma mapM_ok {A B : Type} (f : A → result B) (l : list A) (l' : list B) :
  mapM f l = ok l' → Forall2 (λ x y, f x = ok y) l l'.
Proof.
  revert l'. induction l as [|x l IH]; simpl; intros l'.
  - intros [= <-]. constructor.
  - destruct (f x) as [e|y] eqn:E; simpl; [discriminate|].
    destruct (mapM f l) as [e|ys]; simpl; [discriminate|].
    intros [= <-]. constructor; [done|]. by apply IH.
Qed.

Lemma mapM_total {A B : Type} (f : A → result B) (l : list A) :
  Forall (λ x, ∃ y, f x = ok y) l → ∃ l', mapM f l = ok l'.
Proof.
  induction 1 as [|x l [y Hy] _ [l' IH]]; simpl; [by eexists|].
  rewrite Hy, IH. simpl. by eexists.
Qed.

Section SortWithKey.
Context {A K : Type} `{EqDecision K} (key : A → result K)
  (le : K → K → bool).
Hypothesis le_total : ∀ x y, le x y = false → le y x = true.
Hypothesis le_trans : ∀ x y z, le x y = true → le y z = true → le x z = true.

Lemma sort_with_key_keyed (l l' : list A) :
  sort_with_key key le l = ok l' →
  ∃ keyed : list (K * A),
    Forall (λ p, key (snd p) = ok (fst p)) keyed
    ∧ keyed.*2 = l
    ∧ l' = (stable_sort (λ a b, le (fst a) (fst b)) keyed).*2.
Proof.
  unfold sort_with_key.
  destruct (mapM _ l) as [e|keyed] eqn:E; simpl; [discriminate|].
  intros [= <-]. exists keyed. split; [|split; [|done]].
  - apply mapM_ok in E. induction E as [|x p l keyed Hx _ IH]; [done|].
    constructor; [|done].
    destruct (key x) eqn:Ek; simpl in Hx; [discriminate|].
    by injection Hx as <-.
  - apply mapM_ok in E. induction E as [|x p l keyed Hx _ IH]; [done|].
    rewrite fmap_cons, IH. f_equal.
    destruct (key x); simpl in Hx; [discriminate|]. by injection Hx as <-.
Qed.

Lemma sort_with_key_perm (l l' : list A) :
  sort_with_key key le l = ok l' → l' ≡ₚ l.
Proof.
  intros (keyed & _ & <- & ->)%sort_with_key_keyed.
  apply fmap_Permutation, stable_sort_perm.
Qed.

Lemma sort_with_key_sorted (l l' : list A) :
  sort_with_key key le l = ok l' → StronglySorted (key_le key le) l'.
Proof.
  intros (keyed & Hkeys & <- & ->)%sort_with_key_keyed.
  pose proof (stable_sort_sorted (λ a b : K * A, le (fst a) (fst b))
                (λ x y, le_total (fst x) (fst y))
                (λ x y z, le_trans (fst x) (fst y) (fst z)) keyed) as Hs.
  assert (Forall (λ p, key (snd p) = ok (fst p))
            (stable_sort (λ a b : K * A, le (fst a) (fst b)) keyed)) as Hk.
  { by rewrite stable_sort_perm. }
  induction Hs as [|p ps Hps IH Hp]; simpl; [constructor|].
  inversion Hk as [|? ? Hkp Hkps]; subst.
  constructor; [by apply IH|].
  rewrite Forall_fmap. rewrite Forall_forall in Hp, Hkps |- *.
  intros q Hq. exists (fst p), (fst q). simpl. auto.
Qed.

Lemma sort_with_key_stable (l l' : list A) (k : K) :
  sort_with_key key le l = ok l' →
  filter (λ x, key x = ok k) l' = filter (λ x, key x = ok k) l.
Proof.
  intros (keyed & Hkeys & <- & ->)%sort_with_key_keyed.
  assert (∀ ps : list (K * A),
             Forall (λ p, key (snd p) = ok (fst p)) ps →
             filter (λ x, key x = ok k) ps.*2
             = (filter (λ p : K * A, fst p = k) ps).*2) as Hmap.
  { induction 1 as [|p ps Hp _ IH]; [done|].
    rewrite fmap_cons, !filter_cons, IH, Hp.
    destruct (decide (fst p = k)) as [->|Hne].
    - by rewrite decide_True.
    - rewrite decide_False; [done|]. intros [=]. done. }
  rewrite !Hmap; [|done|by rewrite stable_sort_perm].
  rewrite stable_sort_filter; [done|].
  intros y z -> ->. destruct (le k k) eqn:E; [done|].
  pose proof (le_total k k E). congruence.
Qed.

Lemma sort_with_key_total (l : list A) :
  Forall (λ x, ∃ k, key x = ok k) l → ∃ l', sort_with_key key le l = ok l'.
Proof.
  intros H. unfold sort_with_key.
  destruct (mapM_total (λ x, let* k := key x in ok (k, x)) l) as [l' ->].
  - eapply Forall_impl; [exact H|]. intros x [k ->]. by eexists.
  - simpl. by eexists.
Qed.
End SortWithKey.

(** ** The order of strings and of tuples of strings *)

Lemma str_ltb_lexico (a b : pystr) : str_ltb a b = true ↔ lexico a b.
Proof.
  revert b. induction a as [|x a IH]; intros [|y b]; simpl; try done.
  rewrite orb_true_iff, andb_true_iff, N.ltb_lt, N.eqb_eq, IH.
  unfold lexico at 2, list_lexico, lexico at 1, prod_lexico. simpl.
  reflexivity.
Qed.

Lemma pair_ltb_lexico (a b : pystr * pystr) :
  pair_ltb a b = true ↔ lexico a b.
Proof.
  unfold pair_ltb.
  rewrite orb_true_iff, andb_true_iff, bool_decide_eq_true, !str_ltb_lexico.
  reflexivity.
Qed.

Section LexicoOrder.
Context {K : Type} `{Lexico K} `{!StrictOrder (@lexico K _)}
  `{!Trichotomy (@lexico K _)}.
Variable ltb : K → K → bool.
Hypothesis ltb_lexico : ∀ a b, ltb a b = true ↔ lexico a b.

Lemma leb_total (a b : K) :
  negb (ltb b a) = false → negb (ltb a b) = true.
Proof.
  rewrite negb_false_iff, negb_true_iff, ltb_lexico. intros Hba.
  apply not_true_is_false. rewrite ltb_lexico. intros Hab.
  apply (irreflexivity lexico a). by transitivity b.
Qed.

Lemma leb_trans (a b c : K) :
  negb (ltb b a) = true → negb (ltb c b) = true → negb (ltb c a) = true.
Proof.
  rewrite !negb_true_iff. intros Hba%not_true_iff_false Hcb%not_true_iff_false.
  rewrite ltb_lexico in Hba, Hcb.
  apply not_true_is_false. rewrite ltb_lexico. intros Hca.
  destruct (trichotomy lexico a b) as [Hab|[->|Hab]]; [|done..].
  apply Hcb. by transitivity a.
Qed.

Lemma leb_antisym (a b : K) :
  negb (ltb b a) = true → negb (ltb a b) = true → a = b.
Proof.
  rewrite !negb_true_iff. intros Hba%not_true_iff_false Hab%not_true_iff_false.
  rewrite ltb_lexico in Hba, Hab.
  by destruct (trichotomy lexico a b) as [?|[?|?]].
Qed.
End LexicoOrder.




Lemma pair_leb_total (a b : pystr * pystr) :
  pair_leb a b = false → pair_leb b a = true.
Proof. apply (leb_total pair_ltb pair_ltb_lexico). Qed.


(** ** Grouping *)

Lemma assoc_get_elem {V : Type} (d : list (pystr * V)) (k : pystr) (v : V) :
  NoDup d.*1 → (k, v) ∈ d ↔ assoc_get d k = Some v.
Proof.
  induction d as [|[k' v'] d IH]; simpl.
  - intros _. split; [by intros ?%not_elem_of_nil|done].
  - intros [Hk' Hd]%NoDup_cons. rewrite elem_of_cons, (IH Hd).
    destruct (decide (k' = k)) as [->|Hne].
    + split.
      * intros [[= ->]|Hin]; [done|]. exfalso. apply Hk'.
        apply IH in Hin; [|done]. apply list_elem_of_fmap. by exists (k, v).
      * intros [= ->]. by left.
    + split; [|by right]. intros [[= ? ?]|Hin]; done.
Qed.

Lemma assoc_get_groups_append (groups : list (pystr * list record))
    (key : pystr) (rec : record) (k : pystr) :
  assoc_get (groups_append groups key rec) k =
    if decide (k = key)
    then Some (default [] (assoc_get groups key) ++ [rec])
    else assoc_get groups k.
Proof.
  induction groups as [|[k' rs] groups IH]; cbn [groups_append assoc_get].
  - repeat case_decide; by simplify_eq.
  - destruct (decide (k' = key)) as [->|Hne]; cbn [assoc_get].
    + repeat case_decide; by simplify_eq.
    + rewrite IH. repeat case_decide; by simplify_eq.
Qed.

Lemma groups_append_keys (groups : list (pystr * list record))
    (key : pystr) (rec : record) :
  (groups_append groups key rec).*1 =
    if decide (key ∈ groups.*1) then groups.*1 else groups.*1 ++ [key].
Proof.
  induction groups as [|[k' rs] groups IH]; cbn [groups_append].
  - rewrite decide_False; [done|]. apply not_elem_of_nil.
  - destruct (decide (k' = key)) as [->|Hne]; rewrite !fmap_cons; cbn [fst].
    + rewrite decide_True; [done|]. by left.
    + rewrite IH. destruct (decide (key ∈ groups.*1)) as [Hin|Hnin].
      * rewrite decide_True; [done|]. by right.
      * rewrite decide_False; [done|].
        intros [?|?]%elem_of_cons; done.
Qed.

Lemma groups_append_NoDup (groups : list (pystr * list record))
    (key : pystr) (rec : record) :
  NoDup groups.*1 → NoDup (groups_append groups key rec).*1.
Proof.
  intros H. rewrite groups_append_keys.
  destruct (decide (key ∈ groups.*1)); [done|].
  apply NoDup_app. split; [done|]. split; [|apply NoDup_singleton].
  intros x Hx ->%list_elem_of_singleton. done.
Qed.

Lemma bucket_snoc (k : pystr) (done : list record) (rec : record) :
  bucket k (done ++ [rec]) =
    bucket k done ++ (if decide (group_key rec = ok k) then [rec] else []).
Proof.
  unfold bucket. rewrite filter_app, filter_cons, filter_nil.
  by destruct (decide (group_key rec = ok k)).
Qed.

(** What the grouping loop keeps: one entry per group key met so far, with
    the rows of that group in file order. *)
Lemma group_loop_buckets (records : list record) :
  ∀ (groups : list (pystr * list record)) (done : list record)
    (out : list (pystr * list record)),
    NoDup groups.*1 →
    (∀ k, assoc_get groups k =
            if decide (bucket k done = []) then None
            else Some (bucket k done)) →
    group_loop groups records = ok out →
    NoDup out.*1
    ∧ (∀ k, assoc_get out k =
              if decide (bucket k (done ++ records) = []) then None
              else Some (bucket k (done ++ records)))
    ∧ Forall (λ r, ∃ k, group_key r = ok k) records.
Proof.
  induction records as [|rec records IH]; intros groups done out Hnd Hget;
    cbn [group_loop].
  - intros [= <-]. by rewrite app_nil_r.
  - destruct (group_key rec) as [e|key] eqn:Ekey; cbn [bind]; [discriminate|].
    intros Hout.
    destruct (IH (groups_append groups key rec) (done ++ [rec]) out)
      as (Hnd' & Hget' & Hkeys); [by apply groups_append_NoDup| |done|].
    + intros k. rewrite assoc_get_groups_append, bucket_snoc, Ekey.
      destruct (decide (k = key)) as [->|Hne].
      * rewrite Hget. destruct (decide (_ = ok key)) as [_|Hne]; [|done].
        destruct (decide (bucket key done ++ [rec] = []))
          as [[]%app_eq_nil|_]; [done|].
        by destruct (decide (bucket key done = [])) as [->|_].
      * destruct (decide (_ = ok k)) as [[= E]|_]; [done|].
        by rewrite app_nil_r.
    + rewrite <- app_assoc in Hget'. split; [done|]. split; [done|].
      constructor; [by exists key|done].
Qed.

Lemma group_loop_spec (records : list record)
    (groups : list (pystr * list record)) :
  group_loop [] records = ok groups →
  NoDup groups.*1
  ∧ (∀ k rs, (k, rs) ∈ groups ↔ rs = bucket k records ∧ rs ≠ [])
  ∧ Forall (λ r, ∃ k, group_key r = ok k) records.
Proof.
  intros H. apply (group_loop_buckets _ _ []) in H as (Hnd & Hget & Hkeys).
  - split; [done|]. split; [|done]. intros k rs.
    rewrite (assoc_get_elem _ _ _ Hnd), Hget. simpl.
    destruct (decide (bucket k records = [])) as [E|E].
    + split; [done|]. intros [-> ?]. done.
    + split; [by intros [= <-]|]. by intros [-> _].
  - constructor.
  - intros k. by rewrite decide_True.
Qed.

Lemma group_loop_total (records : list record) :
  ∀ groups : list (pystr * list record),
    Forall (λ r, ∃ k, group_key r = ok k) records →
    ∃ out, group_loop groups records = ok out.
Proof.
  induction records as [|rec records IH]; intros groups H; simpl.
  - by eexists.
  - inversion H as [|? ? [k Hk] Hrest]; subst. rewrite Hk. simpl.
    by apply IH.
Qed.


(** ** process_csv: claims C4 and C8 *)

Section ProcessCsv.
Variable py_lower : pystr → pystr.
Variable py_int : pystr → option Z.
Variable F : Type.
Variable py_float : pystr → option F.
Variable save_xlsx : pystr → sheet F → result unit.
Variable typeset : pystr → latex_document → result bool.

(** A group that has been gone through has been sorted by name, saved as a
    sheet and printed as a table. *)
Lemma process_group_ok (item o : pystr * list record) :
  process_group py_lower py_int py_float save_xlsx typeset item = ok o →
  fst o = fst item
  ∧ sort_with_key (name_key py_lower) pair_leb (snd item) = ok (snd o)
  ∧ save_xlsx (safe_name (fst item) ++ lit ".xlsx")
              (fst (write_xlsx py_int py_float (snd o) (is_fg (fst item))))
    = ok tt
  ∧ ∃ done,
      write_latex_pdf py_lower py_int typeset (snd o)
                      (safe_name (fst item) ++ lit ".pdf") (fst item)
                      (is_fg (fst item))
      = ok done.
Proof.
  unfold process_group.
  destruct (sort_with_key _ _ (snd item)) as [e|sorted]; cbn [bind];
    [discriminate|].
  destruct (save_xlsx _ _) as [e|[]] eqn:Esave; cbn [bind]; [discriminate|].
  destruct (write_latex_pdf _ _ _ _ _ _ _) as [e|done] eqn:Epdf; cbn [bind];
    [discriminate|].
  intros [= <-]. cbn [fst snd]. repeat split; try done. by exists done.
Qed.


Lemma name_key_total (r : record) :
  (∀ c, r !! c ≠ Some None) → ∃ k, name_key py_lower r = ok k.
Proof.
  intros H. unfold name_key, rec_get.
  destruct (r !! COL_NAME) as [[n|]|] eqn:En;
    [|by destruct (H COL_NAME)|];
    (destruct (r !! COL_VORNAME) as [[v|]|] eqn:Ev;
     [|by destruct (H COL_VORNAME)|]); simpl; by eexists.
Qed.

Lemma group_key_total (r : record) :
  (∀ c, r !! c ≠ Some None) → ∃ k, group_key r = ok k.
Proof.
  intros H. unfold group_key, rec_get.
  destruct (r !! GROUP_COLUMN) as [[n|]|] eqn:En;
    [|by destruct (H GROUP_COLUMN)|]; simpl; by eexists.
Qed.


(** C4 (as amended).  A row without the grouping column, or with a string
    in it that is empty once trimmed, has the group key [unbekannt]; a run
    of [process_csv] that returns has put it into the group of that name;
    and so has the grouping loop of a run that is cut short later, by one of
    the writers. *)
Theorem blank_group_is_unbekannt (rec : record) :
  (rec !! GROUP_COLUMN = None
   ∨ ∃ s, rec !! GROUP_COLUMN = Some (Some s) ∧ strip s = []) →
  group_key rec = ok (lit "unbekannt")
  ∧ (∀ (first : record) (rest : list record) out,
       rec ∈ first :: rest →
       first !! GRADES_COLUMN ≠ None →
       process_csv py_lower py_int py_float save_xlsx typeset (first :: rest)
       = ok out →
       ∃ group_records,
         (lit "unbekannt", group_records) ∈ out ∧ rec ∈ group_records)
  ∧ ∀ (records : list record) groups,
      rec ∈ records →
      group_loop [] records = ok groups →
      ∃ group_records,
        (lit "unbekannt", group_records) ∈ groups ∧ rec ∈ group_records.
Proof.
  intros Hblank.
  assert (group_key rec = ok (lit "unbekannt")) as Hkey.
  { unfold group_key, rec_get.
    destruct Hblank as [->|(s & -> & Hs)]; simpl; [done|].
    by rewrite Hs. }
  split; [done|]. split.
  - intros first rest out Hin Hgrades Hout.
    pose proof Hout as Hrun. unfold process_csv in Hrun.
    rewrite decide_False in Hrun by done.
    destruct (group_loop [] (first :: rest)) as [e|groups] eqn:Hgroups;
      cbn [bind] in Hrun; [discriminate|].
    apply mapM_ok in Hrun.
    apply group_loop_spec in Hgroups as (_ & Hbuckets & _).
    assert ((lit "unbekannt", bucket (lit "unbekannt") (first :: rest))
              ∈ sorted_items groups) as Hitem.
    { unfold sorted_items. rewrite stable_sort_perm. apply Hbuckets.
      split; [done|]. intros Hnil.
      assert (rec ∈ bucket (lit "unbekannt") (first :: rest)) as Hrec
        by (by apply list_elem_of_filter).
      rewrite Hnil in Hrec. by apply not_elem_of_nil in Hrec. }
    apply list_elem_of_lookup in Hitem as [i Hi].
    destruct (Forall2_lookup_l _ _ _ _ _ Hrun Hi) as ([k rs'] & Ho & Hsort).
    apply process_group_ok in Hsort as (Hk & Esort & _).
    cbn [fst snd] in Hk, Esort. subst k. exists rs'.
    split; [by apply list_elem_of_lookup_2 in Ho|].
    rewrite (sort_with_key_perm _ _ _ _ Esort).
    by apply list_elem_of_filter.
  - intros records groups Hin (_ & Hbuckets & _)%group_loop_spec.
    assert (rec ∈ bucket (lit "unbekannt") records) as Hrec
      by (by apply list_elem_of_filter).
    exists (bucket (lit "unbekannt") records). split; [|done].
    apply Hbuckets. split; [done|]. intros Hnil. rewrite Hnil in Hrec.
    by apply not_elem_of_nil in Hrec.
Qed.
End ProcessCsv.

(** ** write_xlsx: claims C7 and C9 *)

Lemma map_fmap {A B : Type} (f : A → B) (l : list A) : map f l = f <$> l.
Proof. induction l as [|x l IH]; simpl; [done|]. by rewrite IH. Qed.

Lemma filter_all {A : Type} (P : A → Prop) `{∀ x, Decision (P x)}
    (l : list A) :
  (∀ x, P x) → filter P l = l.
Proof.
  intros HP. induction l as [|x l IH]; [done|].
  by rewrite filter_cons_True, IH.
Qed.

Lemma elem_of_concat {A : Type} (x : A) (ls : list (list A)) :
  x ∈ concat ls ↔ ∃ l, l ∈ ls ∧ x ∈ l.
Proof.
  induction ls as [|l ls IH]; simpl.
  - split; [by intros ?%not_elem_of_nil|]. by intros (l & ?%not_elem_of_nil & _).
  - rewrite elem_of_app, IH. split.
    + intros [Hx|(l' & Hl' & Hx)]; [exists l|exists l']; split; try done.
      * by left.
      * by right.
    + intros (l' & [->|Hl']%elem_of_cons & Hx); [by left|right]. by exists l'.
Qed.

Lemma first_seen_elem (l : list pystr) (x : pystr) : x ∈ first_seen l ↔ x ∈ l.
Proof.
  induction l as [|y l IH]; simpl; [done|].
  rewrite !elem_of_cons, list_elem_of_filter, IH.
  destruct (decide (x = y)); tauto.
Qed.

Lemma first_seen_NoDup (l : list pystr) : NoDup (first_seen l).
Proof.
  induction l as [|y l IH]; simpl; constructor.
  - rewrite list_elem_of_filter. by intros [? _].
  - by apply NoDup_filter.
Qed.

Lemma add_col_fold (l : list pystr) :
  ∀ cols, fold_left add_col l cols
          = cols ++ filter (λ c, c ∉ cols) (first_seen l).
Proof.
  induction l as [|x l IH]; intros cols; simpl.
  - by rewrite filter_nil, app_nil_r.
  - rewrite IH, filter_cons, list_filter_filter. unfold add_col.
    destruct (decide (x ∈ cols)) as [Hin|Hnin].
    + rewrite decide_False by (by intros ?). f_equal.
      apply list_filter_iff. intros c. split; [|by intros [? _]].
      intros Hc. split; [done|]. by intros ->.
    + rewrite decide_True by done. rewrite <- app_assoc. simpl. do 2 f_equal.
      apply list_filter_iff. intros c.
      rewrite elem_of_app, list_elem_of_singleton. tauto.
Qed.

Lemma all_answer_cols_fold (records : list record) :
  ∀ cols,
    fold_left
      (λ cols rec,
         fold_left (λ cols answer, add_col cols (fst answer))
                   (parse_answers (rec_get rec GRADES_COLUMN)) cols)
      records cols
    = fold_left add_col
        (concat (map (λ r, (parse_answers (rec_get r GRADES_COLUMN)).*1)
                     records))
        cols.
Proof.
  induction records as [|rec records IH]; intros cols; simpl; [done|].
  rewrite IH, fold_left_app. f_equal.
  generalize (parse_answers (rec_get rec GRADES_COLUMN)). clear.
  intros answers. revert cols.
  induction answers as [|a answers IH]; intros cols; simpl; [done|].
  by rewrite IH.
Qed.

Lemma all_answer_cols_first_seen (records : list record) :
  all_answer_cols records
  = first_seen
      (concat (map (λ r, (parse_answers (rec_get r GRADES_COLUMN)).*1)
                   records)).
Proof.
  unfold all_answer_cols. rewrite all_answer_cols_fold, add_col_fold. simpl.
  apply filter_all. intros c. apply not_elem_of_nil.
Qed.

Lemma py_dict_missing (answers : list (pystr * answer_value)) (col : pystr) :
  col ∉ answers.*1 → py_dict answers !! col = None.
Proof.
  assert (∀ d : gmap pystr answer_value,
             col ∉ answers.*1 →
             fold_left (λ d kv, <[fst kv := snd kv]> d) answers d !! col
             = d !! col) as Hfold.
  { induction answers as [|[k v] answers IH]; intros d Hnot; simpl; [done|].
    rewrite fmap_cons in Hnot. apply not_elem_of_cons in Hnot as [Hne Hnot].
    rewrite IH by done. simpl. by rewrite lookup_insert_ne. }
  intros Hnot. unfold py_dict. by rewrite Hfold, lookup_empty.
Qed.

Section WriteXlsx.
Variable py_int : pystr → option Z.
Variable F : Type.
Variable py_float : pystr → option F.
(** [int('')] and [float('')] raise [ValueError]. *)
Hypothesis py_int_empty : py_int [] = None.
Hypothesis py_float_empty : py_float [] = None.

(** C7.  The answer columns of a group's sheet are the column names the
    parser gives for the group's rows, taken row by row in the order the
    rows are passed in, each name at the place of its first appearance;
    they follow the base columns in the header row.  In the data row of a
    row whose field does not give rise to one of these names, the cell of
    that column is the empty string. *)
Theorem answer_schema (records : list record) (is_fg : bool) :
  let names := λ r : record,
                 (parse_answers (rec_get r GRADES_COLUMN)).*1 in
  let sheet := fst (write_xlsx py_int py_float records is_fg) in
  all_answer_cols records = first_seen (concat (map names records))
  ∧ NoDup (all_answer_cols records)
  ∧ (∀ c, c ∈ all_answer_cols records ↔ ∃ r, r ∈ records ∧ c ∈ names r)
  ∧ fst sheet = map snd (base_fields is_fg) ++ all_answer_cols records
  ∧ snd (write_xlsx py_int py_float records is_fg)
    = length (all_answer_cols records)
  ∧ ∀ (i j : nat) (rec : record) (col : pystr),
      records !! i = Some rec →
      all_answer_cols records !! j = Some col →
      col ∉ names rec →
      ∃ row,
        snd sheet !! i = Some row
        ∧ row !! (length (base_fields is_fg) + j)%nat = Some (XStr []).
Proof.
  intros names sheet. split; [apply all_answer_cols_first_seen|].
  split; [rewrite all_answer_cols_first_seen; apply first_seen_NoDup|].
  split.
  { intros c. rewrite all_answer_cols_first_seen, first_seen_elem.
    rewrite elem_of_concat, map_fmap. split.
    - intros (l & (r & -> & Hr)%list_elem_of_fmap & Hc).
      exists r. split; [exact Hr|exact Hc].
    - intros (r & Hr & Hc). exists (names r). split; [|exact Hc].
      apply list_elem_of_fmap. exists r. split; [reflexivity|exact Hr]. }
  split; [done|]. split; [done|].
  intros i j rec col Hrec Hcol Hmissing.
  exists (data_row py_int py_float is_fg (all_answer_cols records) rec).
  split.
  { subst sheet. unfold write_xlsx. cbn [fst snd].
    by rewrite map_fmap, list_lookup_fmap, Hrec. }
  unfold data_row. rewrite lookup_app_r by (rewrite length_map; lia).
  rewrite length_map, Nat.add_comm, Nat.add_sub.
  rewrite map_fmap, list_lookup_fmap, Hcol. simpl. f_equal.
  unfold answer_cell. rewrite (py_dict_missing _ _ Hmissing). simpl.
  by rewrite py_int_empty, py_float_empty.
Qed.
End WriteXlsx.

Lemma startswith_fg (bildungsgang : pystr) :
  startswith (lit "FG") bildungsgang = true
  ↔ ∃ rest, bildungsgang = lit "FG" ++ rest.
Proof.
  change (lit "FG") with [70; 71]. split.
  - destruct bildungsgang as [|a [|b rest]]; cbn [startswith];
      try discriminate.
    + rewrite andb_false_r. discriminate.
    + rewrite andb_true_r. intros [Ha Hb]%andb_true_iff.
      apply N.eqb_eq in Ha, Hb. subst. by exists rest.
  - intros [rest ->]. reflexivity.
Qed.

(** C9.  The group key decides: a key that starts with the two letters [FG]
    sets the flag of [process_csv], any other key does not.  For a group
    whose key starts with [FG] the base columns are the six of [BASE_FIELDS]
    with the school-structure column in fifth place, after the birth date
    and before the special-needs flag; for any other group they are the six
    of [BASE_FIELDS].  The labels of the base columns are the first labels
    of the header. *)
Theorem base_fields_schema (bildungsgang : pystr) :
  (is_fg bildungsgang = true ↔ ∃ rest, bildungsgang = lit "FG" ++ rest)
  ∧ ((∃ rest, bildungsgang = lit "FG" ++ rest) →
     base_fields (is_fg bildungsgang)
     = [ (COL_ANREDE, lit "Anrede");
         (COL_NAME, lit "Name");
         (COL_VORNAME, lit "Vorname");
         (COL_GEBURTSDATUM, lit "Geburtsdatum");
         (COL_SCHULGLIEDERUNG, lit "Schulgliederung");
         (COL_FOERDERBEDARF, lit "Sonderpäd. Förderbedarf");
         (COL_RANG, lit "Rang") ])
  ∧ ((∀ rest, bildungsgang ≠ lit "FG" ++ rest) →
     base_fields (is_fg bildungsgang)
     = [ (COL_ANREDE, lit "Anrede");
         (COL_NAME, lit "Name");
         (COL_VORNAME, lit "Vorname");
         (COL_GEBURTSDATUM, lit "Geburtsdatum");
         (COL_FOERDERBEDARF, lit "Sonderpäd. Förderbedarf");
         (COL_RANG, lit "Rang") ])
  ∧ base_fields (is_fg bildungsgang) =
      (if startswith (lit "FG") bildungsgang
       then [ (COL_ANREDE, lit "Anrede");
              (COL_NAME, lit "Name");
              (COL_VORNAME, lit "Vorname");
              (COL_GEBURTSDATUM, lit "Geburtsdatum");
              (COL_SCHULGLIEDERUNG, lit "Schulgliederung");
              (COL_FOERDERBEDARF, lit "Sonderpäd. Förderbedarf");
              (COL_RANG, lit "Rang") ]
       else [ (COL_ANREDE, lit "Anrede");
              (COL_NAME, lit "Name");
              (COL_VORNAME, lit "Vorname");
              (COL_GEBURTSDATUM, lit "Geburtsdatum");
              (COL_FOERDERBEDARF, lit "Sonderpäd. Förderbedarf");
              (COL_RANG, lit "Rang") ])
  ∧ ∀ records,
      take (length (base_fields (is_fg bildungsgang)))
           (header_labels (is_fg bildungsgang) records)
      = map snd (base_fields (is_fg bildungsgang)).
Proof.
  split; [apply startswith_fg|]. split; [|split; [|split]].
  - intros H%startswith_fg. unfold is_fg. by rewrite H.
  - intros H. unfold is_fg.
    destruct (startswith (lit "FG") bildungsgang) eqn:E; [|done].
    apply startswith_fg in E as [rest ->]. by destruct (H rest).
  - unfold is_fg. by destruct (startswith (lit "FG") bildungsgang).
  - intros records. unfold header_labels.
    rewrite take_app_length'; [done|]. by rewrite length_map.
Qed.

(** ** write_latex_pdf: claim C2 *)

Lemma mapM_raises {A B : Type} (f : A → result B) (l : list A) (x : A)
    (e : exn) :
  x ∈ l → f x = raise e → ∃ e', mapM f l = raise e'.
Proof.
  intros Hin Hx. induction l as [|y l IH]; [by apply not_elem_of_nil in Hin|].
  simpl. destruct (f y) as [e0|b] eqn:Ey; simpl; [by eexists|].
  apply elem_of_cons in Hin as [->|Hin].
  - rewrite Hx in Ey. discriminate.
  - destruct (IH Hin) as [e' ->]. simpl. by eexists.
Qed.

Lemma triple_ltb_lexico (a b : Z * pystr * pystr) :
  triple_ltb a b = true ↔ lexico a b.
Proof.
  destruct a as [[ra na] va], b as [[rb nb] vb]. unfold triple_ltb.
  rewrite orb_true_iff, andb_true_iff, Z.ltb_lt, Z.eqb_eq, pair_ltb_lexico.
  change (lexico (ra, na, va) (rb, nb, vb))
    with ((lexico ra rb ∨ ra = rb ∧ lexico na nb)
          ∨ (ra, na) = (rb, nb) ∧ lexico va vb).
  change (lexico (na, va) (nb, vb))
    with (lexico na nb ∨ na = nb ∧ lexico va vb).
  change (lexico ra rb) with (ra < rb)%Z.
  split.
  - intros [H|[-> [H|[-> H]]]]; auto.
  - intros [[H|[-> H]]|[[= -> ->] H]]; auto.
Qed.

Lemma triple_leb_total (a b : Z * pystr * pystr) :
  triple_leb a b = false → triple_leb b a = true.
Proof. apply (leb_total triple_ltb triple_ltb_lexico). Qed.

Lemma triple_leb_trans (a b c : Z * pystr * pystr) :
  triple_leb a b = true → triple_leb b c = true → triple_leb a c = true.
Proof. apply (leb_trans triple_ltb triple_ltb_lexico). Qed.

(** A rank that is absent, [None] or empty counts as 999. *)
Lemma rank_of_sentinel (py_int : pystr → option Z) (r : record) :
  r !! COL_RANG = None ∨ r !! COL_RANG = Some None
  ∨ r !! COL_RANG = Some (Some []) →
  rank_of py_int r = ok 999%Z.
Proof. unfold rank_of, rec_get. by intros [-> | [-> | ->]]. Qed.

(** When no key raises, the rows come out sorted by (rank, lower-cased
    surname, lower-cased given name), rows with the same key in the order
    they came in. *)
Lemma print_sorted_order (py_lower : pystr → pystr)
    (py_int : pystr → option Z) (records out : list record) :
  print_sorted py_lower py_int records = ok out →
  out ≡ₚ records
  ∧ StronglySorted (key_le (print_key py_lower py_int) triple_leb) out
  ∧ ∀ k,
      filter (λ r, print_key py_lower py_int r = ok k) out
      = filter (λ r, print_key py_lower py_int r = ok k) records.
Proof.
  intros H. split; [by eapply sort_with_key_perm|]. split.
  - eapply sort_with_key_sorted; [| |exact H].
    + apply triple_leb_total.
    + apply triple_leb_trans.
  - intros k. eapply sort_with_key_stable; [|exact H]. apply triple_leb_total.
Qed.

(** C2, at the input where it fails.  A row whose rank is a non-empty string
    that [int] does not accept makes the computation of its sort key raise
    [ValueError], and the sort of any list of rows that contains it raises
    an exception instead of returning the rows in order. *)
Theorem print_sorted_raises (py_lower : pystr → pystr)
    (py_int : pystr → option Z) (records : list record) (r : record)
    (rank : pystr) :
  r ∈ records →
  r !! COL_RANG = Some (Some rank) →
  rank ≠ [] →
  py_int rank = None →
  print_key py_lower py_int r = raise ValueError
  ∧ print_sorted py_lower py_int [r] = raise ValueError
  ∧ ∃ e, print_sorted py_lower py_int records = raise e.
Proof.
  intros Hin Hrank Hne Hint.
  assert (print_key py_lower py_int r = raise ValueError) as Hkey.
  { unfold print_key, rank_of, rec_get. rewrite Hrank. simpl.
    rewrite decide_False by done. by rewrite Hint. }
  split; [done|]. split.
  - unfold print_sorted, sort_with_key. simpl. by rewrite Hkey.
  - unfold print_sorted, sort_with_key.
    destruct (mapM_raises
                (λ x, let* k := print_key py_lower py_int x in ok (k, x))
                records r ValueError Hin) as [e ->].
    + by rewrite Hkey.
    + simpl. by eexists.
Qed.

(** ** read_csv: claim C10 *)


(** ** The theorems at sample inputs *)

(** C1 as the specification words it fails.  The third grading line of
    [three_gradings] gets the column name [Bewertung (3)], which is not the
    raw key followed by [ (3)].  And in [empty_grading_of_three] each of the
    three lines has the grading key in front of a separator, yet the first
    has nothing after it and is dropped, so that the third gets the name
    [SV] and no name carries the number 3. *)
Lemma third_grading_not_raw_key :
  raw_pairs three_gradings !! 2%nat = Some (BEWERTUNG_KEY, lit "c")
  ∧ occurrences BEWERTUNG_KEY (take 3 (raw_pairs three_gradings).*1) = 3%nat
  ∧ fst <$> parse_answers (Some three_gradings) !! 2%nat
    = Some (lit "Bewertung (3)")
  ∧ fst <$> parse_answers (Some three_gradings) !! 2%nat
    ≠ Some (BEWERTUNG_KEY ++ lit " (" ++ str_of_nat 3 ++ lit ")")
  ∧ split_lines empty_grading_of_three
    = [ BEWERTUNG_KEY ++ lit ": "; BEWERTUNG_KEY ++ lit ": a";
        BEWERTUNG_KEY ++ lit ": b" ]
  ∧ Forall (λ line,
              contains_sep line = true
              ∧ fst (split_sep line) = BEWERTUNG_KEY)
           (split_lines empty_grading_of_three)
  ∧ parse_answers (Some empty_grading_of_three)
    = [ (lit "AV", Text (lit "a")); (lit "SV", Text (lit "b")) ].
Proof.
  split; [vm_compute; reflexivity|]. split; [vm_compute; reflexivity|].
  split; [vm_compute; reflexivity|]. split; [vm_compute; discriminate|].
  split; [vm_compute; reflexivity|].
  split; [|vm_compute; reflexivity].
  vm_compute. repeat constructor.
Qed.

Lemma grading_key_third_onwards_witness :
  raw_pairs three_gradings !! 2%nat = Some (BEWERTUNG_KEY, lit "c")
  ∧ fst <$> parse_answers (Some three_gradings) !! 2%nat
    = Some (lit "Bewertung" ++ lit " (" ++ str_of_nat 3 ++ lit ")")
  ∧ raw_pairs empty_grading_of_three
    = raw_pairs (unlines [BEWERTUNG_KEY ++ lit ": a";
                          BEWERTUNG_KEY ++ lit ": b"]).
Proof.
  destruct grading_key_third_onwards as [Hthird Hempty].
  split; [vm_compute; reflexivity|]. split.
  - apply (Hthird three_gradings 2%nat 3%nat (lit "c")).
    + vm_compute; reflexivity.
    + vm_compute; reflexivity.
    + lia.
  - apply (Hempty [] [BEWERTUNG_KEY ++ lit ": a"; BEWERTUNG_KEY ++ lit ": b"]
             []).
    + repeat constructor.
    + reflexivity.
Defined.

(** C5 as the specification words it fails.  Both lines of
    [empty_grading_first] have the grading key in front of a separator; the
    first has nothing after it and is dropped, so that the second occurrence
    of the key in the field gets the name [AV], and no entry is named
    [SV]. *)
Lemma second_grading_line_is_av :
  split_lines empty_grading_first
  = [ BEWERTUNG_KEY ++ lit ": ";
      BEWERTUNG_KEY ++ lit ": entspricht den Erwartungen" ]
  ∧ Forall (λ line,
              contains_sep line = true
              ∧ fst (split_sep line) = BEWERTUNG_KEY)
           (split_lines empty_grading_first)
  ∧ parse_answers (Some empty_grading_first) = [ (lit "AV", Number 30) ]
  ∧ lit "SV" ∉ (parse_answers (Some empty_grading_first)).*1.
Proof.
  split; [vm_compute; reflexivity|].
  split; [vm_compute; repeat constructor|].
  split; [vm_compute; reflexivity|].
  vm_compute. intros [H|H]%elem_of_cons; [discriminate|].
  by apply not_elem_of_nil in H.
Qed.

Lemma grading_key_entry_witness :
  raw_pairs three_gradings !! 0%nat
  = Some (BEWERTUNG_KEY, lit "entspricht den Erwartungen")
  ∧ parse_answers (Some three_gradings) !! 0%nat
    = Some (lit "AV", Number 30)
  ∧ parse_answers (Some empty_grading_first)
    = parse_answers
        (Some (unlines [BEWERTUNG_KEY ++ lit ": entspricht den Erwartungen"])).
Proof.
  destruct grading_key_entry as [Hentry Hempty].
  split; [vm_compute; reflexivity|]. split.
  - destruct (Hentry three_gradings 0%nat (lit "entspricht den Erwartungen"))
      as (col_name & v & -> & Hav & _ & _ & _ & H30 & _);
      [vm_compute; reflexivity|].
    rewrite Hav, H30; [reflexivity|reflexivity|vm_compute; reflexivity].
  - apply (Hempty [] [BEWERTUNG_KEY ++ lit ": entspricht den Erwartungen"]
             []).
    + repeat constructor.
    + reflexivity.
Defined.

(** C6 as the specification words it fails.  The first line of
    [empty_subject_first] has the separator, with the key [Kunst] in front
    of it and nothing after it.  It is dropped all the same, so that the
    second line with the key [Kunst] gets the plain name and not
    [Kunst (2)]. *)
Lemma empty_value_line_not_counted :
  split_lines empty_subject_first = [ lit "Kunst: "; lit "Kunst: 4" ]
  ∧ contains_sep (lit "Kunst: ") = true
  ∧ split_sep (lit "Kunst: ") = (lit "Kunst", [])
  ∧ parse_answers (Some empty_subject_first)
    = [ (lit "Kunst", Text (lit "4")) ]
  ∧ lit "Kunst (2)" ∉ (parse_answers (Some empty_subject_first)).*1.
Proof.
  split; [vm_compute; reflexivity|]. split; [vm_compute; reflexivity|].
  split; [vm_compute; reflexivity|]. split; [vm_compute; reflexivity|].
  vm_compute. intros [H|H]%elem_of_cons; [discriminate|].
  by apply not_elem_of_nil in H.
Qed.

Lemma parse_answers_numbering_witness :
  parse_answers (Some (lit "  ")) = []
  ∧ parse_answers (Some two_subjects)
    = parse_answers (Some (unlines [lit "Kunst: 3"; lit "Mathe: 2";
                                    lit "Kunst: 4"]))
  ∧ parse_answers (Some empty_subject_first)
    = parse_answers (Some (unlines [lit "Kunst: 4"]))
  ∧ parse_answers (Some two_subjects) !! 2%nat
    = Some (lit "Kunst" ++ lit " (" ++ str_of_nat 2 ++ lit ")", Text (lit "4")).
Proof.
  destruct parse_answers_numbering
    as (_ & Hblank & Hskip & Hempty & Hentry & _).
  split; [apply Hblank; vm_compute; reflexivity|]. split; [|split].
  - apply (Hskip [lit "Kunst: 3"] [lit "Mathe: 2"; lit "Kunst: 4"]
             (lit "keine Angabe")).
    + repeat constructor.
    + left. vm_compute; reflexivity.
  - apply (Hskip [] [lit "Kunst: 4"] (lit "Kunst: ")).
    + repeat constructor.
    + right. apply (Hempty (lit "Kunst") []); reflexivity.
  - destruct (Hentry two_subjects 2%nat (lit "Kunst") (lit "4")) as [_ ->].
    + vm_compute; reflexivity.
    + vm_compute; discriminate.
    + vm_compute; reflexivity.
Defined.

(** C3 as the specification words it fails: a raw key that reads like a
    numbered name gives the same column name twice. *)
Lemma column_names_collide :
  (parse_answers (Some kunst_collision)).*1
  = [lit "Kunst (2)"; lit "Kunst"; lit "Kunst (2)"]
  ∧ ¬ NoDup (parse_answers (Some kunst_collision)).*1.
Proof.
  split; [vm_compute; reflexivity|].
  intros H. vm_compute in H. apply NoDup_cons in H as [Hnot _].
  apply Hnot. right. left.
Qed.

Lemma column_names_distinct_witness :
  Forall plain_key (raw_pairs two_subjects).*1
  ∧ NoDup (parse_answers (Some two_subjects)).*1.
Proof.
  assert (Forall plain_key (raw_pairs two_subjects).*1) as Hplain.
  { vm_compute. repeat constructor; discriminate. }
  split; [exact Hplain|].
  exact (proj2 (column_names_distinct two_subjects) Hplain).
Defined.

(** C4 as the specification words it fails: the group of a row with a blank
    group field is called [unbekannt], and no group is called [unknown]. *)
Lemma blank_group_is_not_unknown :
  group_key row_blank = ok (lit "unbekannt")
  ∧ group_key row_blank ≠ ok (lit "unknown")
  ∧ result_map (fmap fst)
               (process_csv ascii_lower ascii_int ascii_float saved
                            typeset_done sample_rows)
    = ok [lit "FG1"; lit "unbekannt"]
  ∧ lit "unknown" ∉ [lit "FG1"; lit "unbekannt"].
Proof.
  split; [vm_compute; reflexivity|]. split; [vm_compute; discriminate|].
  split; [vm_compute; reflexivity|].
  vm_compute. intros [H|[H|H]%elem_of_cons]%elem_of_cons.
  - discriminate.
  - discriminate.
  - by apply not_elem_of_nil in H.
Qed.

(** The sample rows are gone through when the libraries raise nothing. *)
Lemma sample_rows_processed :
  ∃ out,
    process_csv ascii_lower ascii_int ascii_float saved typeset_done
                sample_rows
    = ok out.
Proof.
  destruct (process_csv ascii_lower ascii_int ascii_float saved typeset_done
                        sample_rows) as [e|out] eqn:E.
  - apply (f_equal returns) in E. vm_compute in E. discriminate.
  - by exists out.
Defined.

Lemma sample_rows_grouped : ∃ groups, group_loop [] sample_rows = ok groups.
Proof.
  destruct (group_loop [] sample_rows) as [e|groups] eqn:E.
  - apply (f_equal returns) in E. vm_compute in E. discriminate.
  - by exists groups.
Defined.

Lemma blank_group_is_unbekannt_witness :
  (∃ s, row_blank !! GROUP_COLUMN = Some (Some s) ∧ strip s = [])
  ∧ group_key row_blank = ok (lit "unbekannt")
  ∧ (∃ out group_records,
       process_csv ascii_lower ascii_int ascii_float saved typeset_done
                   sample_rows
       = ok out
       ∧ (lit "unbekannt", group_records) ∈ out
       ∧ row_blank ∈ group_records)
  ∧ ∃ groups group_records,
      group_loop [] sample_rows = ok groups
      ∧ (lit "unbekannt", group_records) ∈ groups
      ∧ row_blank ∈ group_records.
Proof.
  assert (∃ s, row_blank !! GROUP_COLUMN = Some (Some s) ∧ strip s = [])
    as Hblank.
  { exists (lit "  "). split; vm_compute; reflexivity. }
  split; [exact Hblank|].
  destruct (blank_group_is_unbekannt ascii_lower ascii_int (Z * nat)%type
              ascii_float saved typeset_done row_blank (or_intror Hblank))
    as (Hkey & Hgroup & Hbucket).
  split; [exact Hkey|]. split.
  - destruct sample_rows_processed as [out Hout].
    destruct (Hgroup row_zed [row_blank; row_adam; row_ADAM] out)
      as [group_records [Hin Hrec]].
    + right. left.
    + vm_compute; discriminate.
    + exact Hout.
    + by exists out, group_records.
  - destruct sample_rows_grouped as [groups Hgroups].
    destruct (Hbucket sample_rows groups) as [group_records [Hin Hrec]].
    + right. left.
    + exact Hgroups.
    + by exists groups, group_records.
Defined.

Lemma make_row_strings (group name vorname rang answers c : pystr) :
  make_row group name vorname rang answers !! c ≠ Some None.
Proof.
  unfold make_row. rewrite !lookup_insert.
  repeat case_decide; try discriminate; by rewrite lookup_empty.
Qed.

Lemma sample_rows_strings (r : record) (c : pystr) :
  r ∈ sample_rows → r !! c ≠ Some None.
Proof.
  unfold sample_rows. intros Hr.
  repeat (apply elem_of_cons in Hr as [->|Hr]; [apply make_row_strings|]).
  by apply not_elem_of_nil in Hr.
Qed.


Lemma base_fields_schema_witness :
  is_fg (lit "FG1") = true
  ∧ is_fg (lit "BG2") = false
  ∧ base_fields (is_fg (lit "FG1")) !! 4%nat
    = Some (COL_SCHULGLIEDERUNG, lit "Schulgliederung")
  ∧ base_fields (is_fg (lit "BG2")) = BASE_FIELDS.
Proof.
  destruct (base_fields_schema (lit "FG1")) as (Hfg & Hseven & _).
  destruct (base_fields_schema (lit "BG2")) as (Hbg & _ & Hsix & _).
  assert (∃ rest, lit "FG1" = lit "FG" ++ rest) as Hprefix
    by (exists (lit "1"); reflexivity).
  assert (∀ rest, lit "BG2" ≠ lit "FG" ++ rest) as Hother
    by (intros rest H; vm_compute in H; discriminate).
  split; [by apply Hfg|]. split.
  - apply not_true_is_false. intros E.
    apply Hbg in E as [rest E]. by destruct (Hother rest).
  - split; [by rewrite (Hseven Hprefix)|]. by rewrite (Hsix Hother).
Defined.

Lemma answer_schema_witness :
  ascii_int [] = None
  ∧ ascii_float [] = None
  ∧ all_answer_cols sample_rows
    = [lit "Kunst"; lit "Mathe"; lit "Kunst (2)"; lit "Sport"]
  ∧ ∃ row,
      snd (fst (write_xlsx ascii_int ascii_float sample_rows true)) !! 0%nat
      = Some row
      ∧ row !! (length (base_fields true) + 1)%nat = Some (XStr []).
Proof.
  split; [reflexivity|]. split; [reflexivity|].
  destruct (answer_schema ascii_int (Z * nat)%type ascii_float eq_refl eq_refl
              sample_rows true) as (Hcols & _ & _ & _ & _ & Hcell).
  split; [rewrite Hcols; vm_compute; reflexivity|].
  apply (Hcell 0%nat 1%nat row_zed (lit "Mathe")).
  - reflexivity.
  - vm_compute; reflexivity.
  - vm_compute. intros [H|H]%elem_of_cons; [discriminate|].
    by apply not_elem_of_nil in H.
Defined.

Lemma print_sorted_raises_witness :
  row_bad_rank !! COL_RANG = Some (Some (lit "abc"))
  ∧ ascii_int (lit "abc") = None
  ∧ print_key ascii_lower ascii_int row_bad_rank = raise ValueError
  ∧ print_sorted ascii_lower ascii_int [row_bad_rank] = raise ValueError
  ∧ ∃ e,
      print_sorted ascii_lower ascii_int (row_bad_rank :: sample_rows)
      = raise e.
Proof.
  split; [vm_compute; reflexivity|]. split; [vm_compute; reflexivity|].
  apply (print_sorted_raises ascii_lower ascii_int
           (row_bad_rank :: sample_rows) row_bad_rank (lit "abc")).
  - left.
  - vm_compute; reflexivity.
  - vm_compute; discriminate.
  - vm_compute; reflexivity.
Defined.



(** ** escape_latex *)

Lemma replace_char_app (old : N) (new a b : pystr) :
  replace_char old new (a ++ b)
  = replace_char old new a ++ replace_char old new b.
Proof. apply flat_map_app. Qed.

Lemma escape_passes_app (passes : list (N * pystr)) :
  ∀ a b : pystr,
    fold_left (λ text cr, replace_char (fst cr) (snd cr) text) passes (a ++ b)
    = fold_left (λ text cr, replace_char (fst cr) (snd cr) text) passes a
      ++ fold_left (λ text cr, replace_char (fst cr) (snd cr) text) passes b.
Proof.
  induction passes as [|[c r] passes IH]; intros a b; simpl; [done|].
  by rewrite replace_char_app, IH.
Qed.

(** The passes of [escape_latex] on a text of one character. *)
Lemma escape_passes_char (c : N) :
  fold_left (λ text cr, replace_char (fst cr) (snd cr) text) LATEX_ESCAPES
            (replace_char BACKSLASH (lit "\textbackslash{}") [c])
  = escape_char c.
Proof.
  unfold escape_char.
  change BACKSLASH with 92. change (chr "&") with 38.
  change (chr "%") with 37. change (chr "$") with 36.
  change (chr "#") with 35. change (chr "_") with 95.
  change (chr "{") with 123. change (chr "}") with 125.
  change (chr "~") with 126. change (chr "^") with 94.
  destruct (c =? 92) eqn:E0; [apply N.eqb_eq in E0 as ->; by vm_compute|].
  destruct (c =? 38) eqn:E1; [apply N.eqb_eq in E1 as ->; by vm_compute|].
  destruct (c =? 37) eqn:E2; [apply N.eqb_eq in E2 as ->; by vm_compute|].
  destruct (c =? 36) eqn:E3; [apply N.eqb_eq in E3 as ->; by vm_compute|].
  destruct (c =? 35) eqn:E4; [apply N.eqb_eq in E4 as ->; by vm_compute|].
  destruct (c =? 95) eqn:E5; [apply N.eqb_eq in E5 as ->; by vm_compute|].
  destruct (c =? 123) eqn:E6; [apply N.eqb_eq in E6 as ->; by vm_compute|].
  destruct (c =? 125) eqn:E7; [apply N.eqb_eq in E7 as ->; by vm_compute|].
  destruct (c =? 126) eqn:E8; [apply N.eqb_eq in E8 as ->; by vm_compute|].
  destruct (c =? 94) eqn:E9; [apply N.eqb_eq in E9 as ->; by vm_compute|].
  unfold LATEX_ESCAPES, replace_char.
  change (chr "&") with 38. change (chr "%") with 37.
  change (chr "$") with 36. change (chr "#") with 35.
  change (chr "_") with 95. change (chr "{") with 123.
  change (chr "}") with 125. change (chr "~") with 126.
  change (chr "^") with 94.
  cbn [fold_left flat_map fst snd app].
  rewrite E0. cbn [flat_map app]. rewrite E1. cbn [flat_map app].
  rewrite E2. cbn [flat_map app]. rewrite E3. cbn [flat_map app].
  rewrite E4. cbn [flat_map app]. rewrite E5. cbn [flat_map app].
  rewrite E6. cbn [flat_map app]. rewrite E7. cbn [flat_map app].
  rewrite E8. cbn [flat_map app]. rewrite E9. reflexivity.
Qed.

Lemma escape_latex_flat_map (s : pystr) :
  escape_latex (Some s) = flat_map escape_char s.
Proof.
  unfold escape_latex. destruct s as [|c0 s0]; [done|].
  rewrite bool_decide_eq_false_2 by done.
  generalize (c0 :: s0). clear. intros s.
  induction s as [|c s IH]; [done|].
  change (c :: s) with ([c] ++ s).
  rewrite replace_char_app, escape_passes_app, IH, escape_passes_char.
  reflexivity.
Qed.

Lemma escape_char_length (c : N) :
  (1 ≤ length (escape_char c))%nat
  ∧ (latex_special c = true → (2 ≤ length (escape_char c))%nat)
  ∧ (latex_special c = false → escape_char c = [c]).
Proof.
  unfold escape_char, latex_special.
  repeat (match goal with
          | |- context [?x =? ?y] =>
              destruct (x =? y) eqn:?;
              [cbn [orb]; split; [vm_compute; lia|];
               split; [intros _; vm_compute; lia|discriminate]|]
          end).
  cbn [orb]. split; [simpl; lia|]. split; [discriminate|done].
Qed.

Lemma escape_latex_length (s : pystr) :
  (length s ≤ length (escape_latex (Some s)))%nat
  ∧ (length (escape_latex (Some s)) = length s →
     forallb (λ c, negb (latex_special c)) s = true).
Proof.
  rewrite escape_latex_flat_map.
  induction s as [|c s [IH1 IH2]]; [done|]. cbn [flat_map forallb length].
  rewrite length_app.
  destruct (escape_char_length c) as (H1 & H2 & _).
  split; [lia|]. intros Hlen.
  destruct (latex_special c) eqn:E; [specialize (H2 eq_refl); lia|].
  simpl. apply IH2. lia.
Qed.

Lemma escape_latex_plain (s : pystr) :
  forallb (λ c, negb (latex_special c)) s = true → escape_latex (Some s) = s.
Proof.
  rewrite escape_latex_flat_map.
  induction s as [|c s IH]; [done|]. cbn [flat_map forallb].
  intros [Hc Hs]%andb_true_iff. apply negb_true_iff in Hc.
  destruct (escape_char_length c) as (_ & _ & H3). rewrite (H3 Hc).
  simpl. by rewrite IH.
Qed.

(** ** Characters that are not escaped *)

Section Unescaped.
Variable sp : N → bool.

Lemma unescaped_prev (p q : N) (s : pystr) :
  (p =? BACKSLASH) = (q =? BACKSLASH) → unescaped sp p s = unescaped sp q s.
Proof. destruct s as [|c s]; [done|]. simpl. by intros ->. Qed.

Lemma unescaped_le (p : N) (s : pystr) :
  (unescaped sp p s ≤ unescaped sp 0 s)%nat.
Proof.
  destruct s as [|c s]; [done|]. simpl.
  destruct (sp c), (p =? BACKSLASH); simpl; lia.
Qed.

Lemma unescaped_app (p : N) (a b : pystr) :
  unescaped sp p (a ++ b)
  = (unescaped sp p a + unescaped sp (default p (last a)) b)%nat.
Proof.
  revert p. induction a as [|c a IH]; intros p; [done|].
  cbn [app unescaped]. rewrite IH, Nat.add_assoc.
  assert (default c (last a) = default p (last (c :: a))) as ->; [|done].
  destruct a as [|d a']; [done|]. rewrite last_cons_cons.
  destruct (last (d :: a')) eqn:E; [done|]. by apply last_None in E.
Qed.

Lemma clean_app (a b : pystr) :
  unescaped sp 0 a = 0%nat → unescaped sp 0 b = 0%nat →
  unescaped sp 0 (a ++ b) = 0%nat.
Proof.
  intros Ha Hb. rewrite unescaped_app, Ha.
  pose proof (unescaped_le (default 0 (last a)) b). lia.
Qed.

Lemma clean_any_prev (p : N) (s : pystr) :
  unescaped sp 0 s = 0%nat → unescaped sp p s = 0%nat.
Proof. intros H. pose proof (unescaped_le p s). lia. Qed.

Lemma clean_prefix (a b : pystr) :
  unescaped sp 0 (a ++ b) = 0%nat → unescaped sp 0 a = 0%nat.
Proof. rewrite unescaped_app. lia. Qed.

Lemma isspace_not_backslash (c : N) : isspace c = true → (c =? BACKSLASH) = false.
Proof.
  intros H. apply N.eqb_neq. intros ->. vm_compute in H. discriminate.
Qed.

Lemma clean_lstrip (s : pystr) :
  unescaped sp 0 s = 0%nat → unescaped sp 0 (lstrip s) = 0%nat.
Proof.
  induction s as [|c s IH]; [done|]. cbn [lstrip].
  destruct (isspace c) eqn:E; [|done]. intros H. apply IH.
  cbn [unescaped] in H.
  rewrite (unescaped_prev 0 c); [lia|].
  by rewrite (isspace_not_backslash _ E).
Qed.

Lemma clean_strip (s : pystr) :
  unescaped sp 0 s = 0%nat → unescaped sp 0 (strip s) = 0%nat.
Proof.
  intros H%clean_lstrip. unfold strip, rstrip.
  destruct (lstrip_suffix (rev (lstrip s))) as [u Hu].
  apply (f_equal (@rev N)) in Hu. rewrite rev_involutive, rev_app_distr in Hu.
  rewrite Hu in H. by apply clean_prefix in H.
Qed.

Lemma clean_join (sep : pystr) (parts : list pystr) :
  unescaped sp 0 sep = 0%nat →
  Forall (λ p, unescaped sp 0 p = 0%nat) parts →
  unescaped sp 0 (join sep parts) = 0%nat.
Proof.
  intros Hsep. induction 1 as [|p parts Hp Hparts IH]; [done|].
  cbn [join]. destruct parts as [|q parts]; [done|].
  by repeat apply clean_app.
Qed.

Lemma clean_nonempty (parts : list pystr) :
  Forall (λ p, unescaped sp 0 p = 0%nat) parts →
  Forall (λ p, unescaped sp 0 p = 0%nat) (nonempty parts).
Proof.
  intros H. apply Forall_forall. intros p [_ Hp]%list_elem_of_filter.
  rewrite Forall_forall in H. by apply H.
Qed.

(** From here on [sp] picks out active characters only. *)
Hypothesis sp_active : ∀ c, sp c = true → is_active c = true.

Lemma unescaped_active (p : N) (s : pystr) :
  (unescaped sp p s ≤ unescaped is_active p s)%nat.
Proof.
  revert p. induction s as [|c s IH]; intros p; [done|]. simpl.
  specialize (IH c). destruct (sp c) eqn:E.
  - rewrite (sp_active _ E). lia.
  - simpl. lia.
Qed.

Lemma clean_of_active (s : pystr) :
  unescaped is_active 0 s = 0%nat → unescaped sp 0 s = 0%nat.
Proof. intros H. pose proof (unescaped_active 0 s). lia. Qed.
End Unescaped.

Lemma escape_char_clean (c : N) : unescaped is_active 0 (escape_char c) = 0%nat.
Proof.
  unfold escape_char.
  repeat (match goal with
          | |- context [?x =? ?y] =>
              destruct (x =? y) eqn:?; [by vm_compute|]
          end).
  simpl. unfold is_active, is_amp, is_other_active.
  repeat (match goal with H : (_ =? _) = false |- _ => rewrite H; clear H end).
  reflexivity.
Qed.

Lemma escape_latex_clean (text : option pystr) :
  unescaped is_active 0 (escape_latex text) = 0%nat.
Proof.
  destruct text as [s|]; [|done]. rewrite escape_latex_flat_map.
  induction s as [|c s IH]; [done|]. cbn [flat_map].
  apply clean_app; [apply escape_char_clean|done].
Qed.

Lemma escape_char_no_tilde (c x : N) :
  x ∈ escape_char c → x ≠ chr "~" ∧ x ≠ chr "^".
Proof.
  unfold escape_char.
  repeat (match goal with
          | |- context [?a =? ?b] =>
              destruct (a =? b) eqn:?;
              [vm_compute; intros H;
               repeat (apply elem_of_cons in H as [->|H]; [split; discriminate|]);
               by apply not_elem_of_nil in H|]
          end).
  intros ->%list_elem_of_singleton.
  split; intros ->; vm_compute in *; discriminate.
Qed.

(** ** The rows of the tables *)

Lemma unescaped_only_amps (sp : N → bool) (q : N) (w : pystr) :
  (∀ c, sp c = true → is_active c = true) →
  forallb (λ c, negb (is_other_active c)) w = true →
  unescaped sp q w
  = if sp (chr "&") then unescaped is_amp q w else 0%nat.
Proof.
  intros Hsp. revert q. induction w as [|c w IH]; intros q; cbn [forallb].
  - by destruct (sp (chr "&")).
  - intros [Hc Hw]%andb_true_iff. apply negb_true_iff in Hc.
    cbn [unescaped]. rewrite (IH c Hw).
    destruct (is_amp c) eqn:Ea.
    + apply N.eqb_eq in Ea as ->. destruct (sp (chr "&")); simpl; lia.
    + assert (sp c = false) as ->.
      { destruct (sp c) eqn:E; [|done]. apply Hsp in E.
        unfold is_active in E. rewrite Ea, Hc in E. discriminate. }
      destruct (sp (chr "&")); simpl; lia.
Qed.

Section RowCount.
Variable sp : N → bool.
Hypothesis sp_active : ∀ c, sp c = true → is_active c = true.

(** A cell without unescaped active characters, followed by the separator
    of the cells. *)
Lemma count_cell (q : N) (content rest : pystr) :
  unescaped is_active 0 content = 0%nat →
  unescaped sp q (content ++ lit " & " ++ rest)
  = ((if sp (chr "&") then 1 else 0) + unescaped sp 32 rest)%nat.
Proof.
  intros Hclean. rewrite unescaped_app.
  rewrite (clean_any_prev sp q content (clean_of_active sp sp_active _ Hclean)).
  rewrite unescaped_app.
  rewrite (unescaped_only_amps sp _ (lit " & ") sp_active) by reflexivity.
  change (default (default q (last content)) (last (lit " & "))) with 32.
  change (unescaped is_amp (default q (last content)) (lit " & "))
    with 1%nat.
  destruct (sp (chr "&")); lia.
Qed.

Lemma count_row_end (q : N) (content : pystr) :
  unescaped is_active 0 content = 0%nat →
  unescaped sp q (content ++ ROW_END)
  = if sp (chr "&") then 2%nat else 0%nat.
Proof.
  intros Hclean. rewrite unescaped_app.
  rewrite (clean_any_prev sp q content (clean_of_active sp sp_active _ Hclean)).
  rewrite (unescaped_only_amps sp _ ROW_END sp_active) by reflexivity.
  reflexivity.
Qed.
End RowCount.

Lemma stripped_cases (rec : record) (field : pystr) :
  (stripped rec field = raise AttributeError ∧ rec !! field = Some None)
  ∨ (∃ s, stripped rec field = ok s ∧ rec !! field ≠ Some None).
Proof.
  unfold stripped, rec_get.
  destruct (rec !! field) as [[s|]|]; simpl; [right|by left|right];
    by eexists.
Qed.

Lemma g_cases (rec : record) (field : pystr) :
  (g rec field = raise AttributeError ∧ rec !! field = Some None)
  ∨ (∃ x, g rec field = ok x ∧ unescaped is_active 0 x = 0%nat
          ∧ rec !! field ≠ Some None).
Proof.
  unfold g. destruct (stripped_cases rec field) as [[-> H]|(s & -> & H)].
  - by left.
  - right. cbn [bind ok]. eexists. split; [reflexivity|].
    split; [apply escape_latex_clean|done].
Qed.

Ltac clean_parts :=
  repeat first
    [ assumption
    | apply escape_latex_clean
    | apply clean_strip
    | apply clean_app
    | apply clean_join
    | apply clean_nonempty
    | apply Forall_cons_2
    | apply Forall_nil_2
    | apply Forall_app_2
    | reflexivity
    | case_decide ].

Ltac read_failed :=
  left; split; [reflexivity|];
  apply Exists_exists; eexists; split; [|eassumption];
  apply list_elem_of_In; unfold row_fields; simpl; tauto.

Ltac read_g rec field :=
  let x := fresh "x" in
  let C := fresh "C" in
  let H := fresh "H" in
  destruct (g_cases rec field) as [[-> H]|(x & -> & C & H)];
  [read_failed|cbn [bind ok]].

Ltac read_stripped rec field :=
  let x := fresh "s" in
  let H := fresh "H" in
  destruct (stripped_cases rec field) as [[-> H]|(x & -> & H)];
  [read_failed|cbn [bind ok]].

(** What [latex_row] comes to: an [AttributeError] when one of the fields
    it reads is [None], and otherwise a row of cells none of which holds an
    unescaped active character. *)
Lemma latex_row_result (is_fg : bool) (rec : record) :
  (latex_row is_fg rec = raise AttributeError
   ∧ Exists (λ f, rec !! f = Some None) (row_fields is_fg))
  ∨ (∃ col1 col2 col3 col_sg,
       unescaped is_active 0 (lit "    " ++ col1) = 0%nat
       ∧ unescaped is_active 0 col2 = 0%nat
       ∧ unescaped is_active 0 col3 = 0%nat
       ∧ unescaped is_active 0 col_sg = 0%nat
       ∧ Forall (λ f, rec !! f ≠ Some None) (row_fields is_fg)
       ∧ latex_row is_fg rec
         = ok (if is_fg
               then lit "    " ++ col1 ++ lit " & " ++ col2 ++ lit " & "
                    ++ col3 ++ lit " & " ++ col_sg ++ ROW_END
               else lit "    " ++ col1 ++ lit " & " ++ col2 ++ lit " & "
                    ++ col3 ++ ROW_END)).
Proof.
  unfold latex_row.
  read_g rec COL_NAME. read_g rec COL_VORNAME. read_g rec COL_GEBURTSDATUM.
  read_g rec COL_STRASSE. read_g rec COL_HAUSNUMMER.
  read_g rec COL_POSTLEITZAHL. read_g rec COL_WOHNORT.
  read_g rec COL_ORTSTEIL. read_g rec COL_TELEFON.
  read_g rec COL_TELEFON_WEITERE. read_g rec COL_EMAIL.
  read_stripped rec COL_HOECHSTER_ABSCHLUSS.
  read_stripped rec COL_LETZTER_ABSCHLUSS.
  read_g rec COL_RANG. read_g rec COL_UNTERLAGEN.
  read_stripped rec COL_FOERDERBEDARF.
  destruct is_fg.
  - read_g rec COL_SCHULGLIEDERUNG.
    right. eexists _, _, _, _.
    refine (conj _ (conj _ (conj _ (conj _ (conj _ _))))).
    6: reflexivity.
    5: { unfold row_fields. simpl. repeat constructor; assumption. }
    all: clean_parts.
  - right. eexists _, _, _, [].
    refine (conj _ (conj _ (conj _ (conj _ (conj _ _))))).
    6: reflexivity.
    5: { unfold row_fields. simpl. repeat constructor; assumption. }
    all: clean_parts.
Qed.

Lemma row_counts (is_fg : bool) (col1 col2 col3 col_sg : pystr) :
  unescaped is_active 0 (lit "    " ++ col1) = 0%nat →
  unescaped is_active 0 col2 = 0%nat →
  unescaped is_active 0 col3 = 0%nat →
  unescaped is_active 0 col_sg = 0%nat →
  let row := if is_fg
             then lit "    " ++ col1 ++ lit " & " ++ col2 ++ lit " & "
                  ++ col3 ++ lit " & " ++ col_sg ++ ROW_END
             else lit "    " ++ col1 ++ lit " & " ++ col2 ++ lit " & "
                  ++ col3 ++ ROW_END in
  unescaped is_amp 0 row = (if is_fg then 5 else 4)%nat
  ∧ unescaped is_other_active 0 row = 0%nat.
Proof.
  intros C1 C2 C3 C4 row. subst row.
  assert (∀ c, is_amp c = true → is_active c = true) as Hamp.
  { intros c H. unfold is_active. by rewrite H. }
  assert (∀ c, is_other_active c = true → is_active c = true) as Hother.
  { intros c H. unfold is_active. rewrite H. apply orb_true_r. }
  destruct is_fg; rewrite !(app_assoc (lit "    ") col1).
  - split.
    + rewrite !(count_cell is_amp Hamp) by done.
      by rewrite (count_row_end is_amp Hamp).
    + rewrite !(count_cell is_other_active Hother) by done.
      by rewrite (count_row_end is_other_active Hother).
  - split.
    + rewrite !(count_cell is_amp Hamp) by done.
      by rewrite (count_row_end is_amp Hamp).
    + rewrite !(count_cell is_other_active Hother) by done.
      by rewrite (count_row_end is_other_active Hother).
Qed.

(** X5.  [latex_row] returns a row exactly when none of the fields it reads
    (sixteen, and the school structure for an FG group) is [None], as in a
    row of the file that is shorter than the header; when one is, it raises
    [AttributeError], and it raises nothing else. *)
Theorem latex_row_outcome (is_fg : bool) (rec : record) :
  ((∃ row, latex_row is_fg rec = ok row)
   ↔ Forall (λ f, rec !! f ≠ Some None) (row_fields is_fg))
  ∧ (latex_row is_fg rec = raise AttributeError
     ↔ Exists (λ f, rec !! f = Some None) (row_fields is_fg))
  ∧ ∀ e, latex_row is_fg rec = raise e → e = AttributeError.
Proof.
  destruct (latex_row_result is_fg rec)
    as [[Hraise Hex]|(c1 & c2 & c3 & c4 & _ & _ & _ & _ & Hall & Hok)].
  - rewrite Hraise. split; [|split].
    + split; [by intros [row [=]]|]. intros Hall. exfalso.
      apply Exists_exists in Hex as (f & Hf & Hnone).
      rewrite Forall_forall in Hall. by apply (Hall f).
    + done.
    + by intros e [= <-].
  - rewrite Hok. split; [|split].
    + split; [done|]. intros _. by eexists.
    + split; [discriminate|]. intros Hex. exfalso.
      apply Exists_exists in Hex as (f & Hf & Hnone).
      rewrite Forall_forall in Hall. by apply (Hall f).
    + discriminate.
Qed.

Lemma latex_row_counts (is_fg : bool) (rec : record) (row : pystr) :
  latex_row is_fg rec = ok row →
  unescaped is_amp 0 row = (if is_fg then 5 else 4)%nat
  ∧ unescaped is_other_active 0 row = 0%nat.
Proof.
  destruct (latex_row_result is_fg rec)
    as [[-> _]|(c1 & c2 & c3 & c4 & C1 & C2 & C3 & C4 & _ & ->)];
    [discriminate|].
  intros [= <-]. by apply row_counts.
Qed.

(** X6.  Whatever the fields of a row hold, the text made for it has
    exactly four ampersands that are not directly preceded by a backslash
    (five for an FG group), one fewer than the table has columns, and no
    percent sign, dollar, hash or underscore that is not directly preceded
    by a backslash: field contents cannot add a cell or cut the row short. *)
Theorem latex_row_separators (is_fg : bool) (rec : record) (row : pystr) :
  latex_row is_fg rec = ok row →
  unescaped is_amp 0 row = (if is_fg then 5 else 4)%nat
  ∧ unescaped is_other_active 0 row = 0%nat.
Proof. apply latex_row_counts. Qed.

(** ** Trimmed strings *)

Lemma lstrip_fixed (s : pystr) :
  (∀ c, head s = Some c → isspace c = false) → lstrip s = s.
Proof.
  destruct s as [|c s]; [done|]. intros H. cbn [lstrip].
  by rewrite (H c eq_refl).
Qed.

Lemma lstrip_head_not_space (s : pystr) (c : N) :
  head (lstrip s) = Some c → isspace c = false.
Proof.
  destruct (lstrip s) as [|d t] eqn:E; [done|]. intros [= ->].
  by apply (lstrip_head s c t).
Qed.

Lemma lstrip_lstrip (s : pystr) : lstrip (lstrip s) = lstrip s.
Proof. apply lstrip_fixed, lstrip_head_not_space. Qed.

Lemma rstrip_prefix (s : pystr) : ∃ u, s = rstrip s ++ u.
Proof.
  unfold rstrip. destruct (lstrip_suffix (rev s)) as [u Hu].
  exists (rev u). apply (f_equal (@rev N)) in Hu.
  by rewrite rev_involutive, rev_app_distr in Hu.
Qed.

Lemma rstrip_rstrip (s : pystr) : rstrip (rstrip s) = rstrip s.
Proof. unfold rstrip. by rewrite rev_involutive, lstrip_lstrip. Qed.

(** Trimming a trimmed string changes nothing. *)
Lemma strip_strip (s : pystr) : strip (strip s) = strip s.
Proof.
  unfold strip at 1. rewrite lstrip_fixed; [apply rstrip_rstrip|].
  intros c Hc. unfold strip in Hc.
  destruct (rstrip_prefix (lstrip s)) as [u Hu].
  apply (lstrip_head_not_space s). rewrite Hu.
  by destruct (rstrip (lstrip s)).
Qed.

Lemma strip_map (f : N → N) (s : pystr) :
  (∀ c, isspace (f c) = isspace c) → strip (map f s) = map f (strip s).
Proof.
  intros Hf.
  assert (∀ t, lstrip (map f t) = map f (lstrip t)) as Hl.
  { induction t as [|c t IH]; [done|]. cbn [map lstrip].
    rewrite Hf. by destruct (isspace c). }
  unfold strip, rstrip. by rewrite Hl, <- map_rev, Hl, map_rev.
Qed.

(** ** Groups and their counts *)

Lemma group_key_trimmed (rec : record) (k : pystr) :
  group_key rec = ok k → k ≠ [] ∧ strip k = k.
Proof.
  unfold group_key. destruct (rec_get rec GROUP_COLUMN) as [s|]; [|done].
  intros [= <-]. destruct (decide (strip s = [])) as [E|E].
  - split; [discriminate|]. by vm_compute.
  - split; [done|apply strip_strip].
Qed.

Lemma summary_total_app (a b : list (pystr * nat)) :
  summary_total (a ++ b) = (summary_total a + summary_total b)%nat.
Proof.
  unfold summary_total. rewrite map_app.
  induction (map snd a) as [|n l IH]; simpl; [done|]. rewrite IH. lia.
Qed.

Lemma groups_append_total (groups : list (pystr * list record))
    (key : pystr) (rec : record) :
  summary_total (group_stats (groups_append groups key rec))
  = S (summary_total (group_stats groups)).
Proof.
  induction groups as [|[k rs] groups IH]; cbn [groups_append]; [done|].
  destruct (decide (k = key)) as [->|Hne].
  - unfold summary_total, group_stats. cbn [map fst snd fold_right].
    rewrite length_app. simpl. lia.
  - unfold summary_total, group_stats in *. cbn [map fst snd fold_right].
    rewrite IH. lia.
Qed.

Lemma group_loop_total_rows (records : list record) :
  ∀ groups out,
    group_loop groups records = ok out →
    summary_total (group_stats out)
    = (summary_total (group_stats groups) + length records)%nat.
Proof.
  induction records as [|rec records IH]; intros groups out; cbn [group_loop].
  - intros [= <-]. simpl. lia.
  - destruct (group_key rec) as [e|key]; cbn [bind]; [discriminate|].
    intros H%IH. rewrite H, groups_append_total. simpl. lia.
Qed.

Lemma summary_total_perm (a b : list (pystr * list record)) :
  a ≡ₚ b → summary_total (group_stats a) = summary_total (group_stats b).
Proof.
  unfold summary_total, group_stats.
  induction 1 as [|x a b _ IH|x y a|a b c _ IH1 _ IH2]; simpl; lia.
Qed.

Section Partition.
Variable py_lower : pystr → pystr.
Variable py_int : pystr → option Z.
Variable F : Type.
Variable py_float : pystr → option F.
Variable save_xlsx : pystr → sheet F → result unit.
Variable typeset : pystr → latex_document → result bool.

Lemma process_csv_groups (records : list record)
    (out : list (pystr * list record)) :
  skipped records = false →
  process_csv py_lower py_int py_float save_xlsx typeset records = ok out →
  ∃ groups,
    group_loop [] records = ok groups
    ∧ Forall2 (λ item o,
                 fst o = fst item
                 ∧ sort_with_key (name_key py_lower) pair_leb (snd item)
                   = ok (snd o))
              (sorted_items groups) out.
Proof.
  unfold process_csv, skipped. destruct records as [|first rest]; [done|].
  intros Hskip%bool_decide_eq_false. rewrite decide_False by done.
  destruct (group_loop [] (first :: rest)) as [e|groups]; cbn [bind];
    [discriminate|].
  intros H%mapM_ok. exists groups. split; [done|].
  eapply Forall2_impl; [exact H|]. intros item o Ho.
  by apply process_group_ok in Ho as (? & ? & _).
Qed.

Lemma process_csv_skipped (records : list record) :
  skipped records = true →
  process_csv py_lower py_int py_float save_xlsx typeset records = ok [].
Proof.
  unfold process_csv, skipped. destruct records as [|first rest]; [done|].
  intros H%bool_decide_eq_true. by rewrite decide_True.
Qed.

Lemma process_csv_counts (records : list record)
    (out : list (pystr * list record)) :
  process_csv py_lower py_int py_float save_xlsx typeset records = ok out →
  (skipped records = true → out = [])
  ∧ (skipped records = false →
     summary_total (group_stats out) = length records)
  ∧ NoDup out.*1
  ∧ Forall (λ item,
              fst item ≠ [] ∧ strip (fst item) = fst item ∧ snd item ≠ [])
           out.
Proof.
  intros Hout. destruct (skipped records) eqn:Eskip.
  { rewrite (process_csv_skipped _ Eskip) in Hout. injection Hout as <-.
    split; [done|]. split; [done|]. split; constructor. }
  split; [done|].
  destruct (process_csv_groups _ _ Eskip Hout) as (groups & Hgroups & Hitems).
  pose proof (group_loop_total_rows _ _ _ Hgroups) as Htotal.
  apply group_loop_spec in Hgroups as (Hnd & Hbuckets & _).
  assert (sorted_items groups ≡ₚ groups) as Hperm
    by apply stable_sort_perm.
  assert (out.*1 = (sorted_items groups).*1) as Hkeys.
  { clear -Hitems. induction Hitems as [|? ? ? ? [H _] _ IH]; [done|].
    by rewrite !fmap_cons, IH, H. }
  split; [|split].
  - intros _. rewrite <- (summary_total_perm _ _ Hperm) in Htotal.
    simpl in Htotal. rewrite <- Htotal. clear -Hitems.
    induction Hitems as [|[k rs] [k' rs'] items out [Hk Hs] _ IH]; [done|].
    cbn [fst snd] in Hk, Hs. apply sort_with_key_perm in Hs.
    unfold summary_total, group_stats in *. cbn [map fst snd fold_right].
    by rewrite IH, (Permutation_length Hs).
  - by rewrite Hkeys, Hperm.
  - apply Forall_forall. intros [k rs'] Hin.
    apply list_elem_of_lookup in Hin as [i Hi].
    destruct (Forall2_lookup_r _ _ _ _ _ Hitems Hi)
      as ([k0 rs] & Hitem & Hk & Hsort).
    cbn [fst snd] in *. subst k0.
    apply list_elem_of_lookup_2 in Hitem. rewrite Hperm in Hitem.
    apply Hbuckets in Hitem as [-> Hne].
    apply sort_with_key_perm in Hsort.
    destruct (bucket k records) as [|r rs] eqn:Eb; [done|].
    assert (r ∈ bucket k records) as Hr by (rewrite Eb; by left).
    apply list_elem_of_filter in Hr as [Hkey _].
    destruct (group_key_trimmed _ _ Hkey) as [H1 H2].
    split; [done|]. split; [done|]. intros ->.
    by apply Permutation_nil_l in Hsort.
Qed.

(** X11.  The groups [process_csv] has gone through, each sorted, written
    and printed, split the rows of the file:
    a skipped file (no rows, or no column of answers) gives no group;
    otherwise the row counts of the groups add up to the number of rows of
    the file, no group key comes twice, and every group has at least one
    row and a key that is not empty and has no white space at its ends. *)
Theorem process_csv_partition (records : list record)
    (out : list (pystr * list record)) :
  process_csv py_lower py_int py_float save_xlsx typeset records = ok out →
  (skipped records = true → out = [])
  ∧ (skipped records = false →
     summary_total (group_stats out) = length records)
  ∧ NoDup out.*1
  ∧ Forall (λ item,
              fst item ≠ [] ∧ strip (fst item) = fst item ∧ snd item ≠ [])
           out.
Proof. apply process_csv_counts. Qed.
End Partition.

(** ** The summary *)

Section MainStats.
Variable py_lower : pystr → pystr.
Variable py_int : pystr → option Z.
Variable F : Type.
Variable py_float : pystr → option F.
Variable save_xlsx : pystr → sheet F → result unit.
Variable typeset : pystr → latex_document → result bool.

(** X12.  When the loop of [main] has gone through its files, the total of
    the summary is the number of rows of the files that were not skipped,
    and there are no statistics at all (so no summary is written) exactly
    when every file was skipped. *)
Theorem main_stats_total (files : list (list record))
    (stats : list (pystr * nat)) :
  main_stats py_lower py_int py_float save_xlsx typeset files = ok stats →
  summary_total stats
  = fold_right Nat.add 0%nat
      (map (λ records, if skipped records then 0%nat else length records)
           files)
  ∧ (stats = [] ↔ forallb skipped files = true).
Proof.
  revert stats. induction files as [|records files IH]; intros stats;
    cbn [main_stats].
  - by intros [= <-].
  - destruct (process_csv py_lower py_int py_float save_xlsx typeset records)
      as [e|groups] eqn:Eg; cbn [bind]; [discriminate|].
    destruct (main_stats py_lower py_int py_float save_xlsx typeset files)
      as [e|more]; cbn [bind]; [discriminate|].
    intros [= <-]. destruct (IH more eq_refl) as [IH1 IH2].
    destruct (process_csv_counts py_lower py_int F py_float save_xlsx typeset
                _ _ Eg)
      as (Hskip & Htotal & _ & _).
    rewrite summary_total_app, IH1. cbn [map fold_right forallb].
    destruct (skipped records) eqn:Es.
    + rewrite (Hskip eq_refl). simpl. split; [done|]. exact IH2.
    + rewrite (Htotal eq_refl). split; [done|]. simpl.
      split; [|discriminate]. intros [Hg _]%app_eq_nil.
      specialize (Htotal eq_refl).
      destruct groups; [|done]. simpl in Htotal.
      destruct records; [done|]. simpl in Htotal. discriminate.
Qed.
End MainStats.

Lemma digits_clean (n : nat) : unescaped is_active 0 (str_of_nat n) = 0%nat.
Proof.
  pose proof (str_of_nat_digits n) as H.
  assert (∀ q, unescaped is_active q (str_of_nat n) = 0%nat) as Hq; [|done].
  induction H as [|c l Hc _ IH]; intros q; [done|]. cbn [unescaped].
  rewrite IH.
  assert (is_active c = false) as ->; [|done].
  unfold is_active, is_amp, is_other_active.
  change (chr "&") with 38. change (chr "%") with 37.
  change (chr "$") with 36. change (chr "#") with 35.
  change (chr "_") with 95.
  repeat (apply orb_false_intro); apply N.eqb_neq; lia.
Qed.

Section SummaryCount.
Variable sp : N → bool.
Hypothesis sp_active : ∀ c, sp c = true → is_active c = true.

Lemma count_summary_row (q : N) (stat : pystr * nat) :
  unescaped sp q (summary_row stat) = if sp (chr "&") then 1%nat else 0%nat.
Proof.
  unfold summary_row. rewrite (app_assoc (lit "    ")).
  rewrite (count_cell sp sp_active).
  - rewrite (clean_any_prev sp 32); [by destruct (sp (chr "&"))|].
    apply (clean_of_active sp sp_active).
    apply clean_app; [apply digits_clean|reflexivity].
  - apply clean_app; [reflexivity|apply escape_latex_clean].
Qed.

Lemma summary_row_last (stat : pystr * nat) :
  last (summary_row stat) = Some (chr "e").
Proof.
  unfold summary_row. rewrite !app_assoc.
  change (lit "    \hline") with (lit "    \hlin" ++ [chr "e"]).
  by rewrite app_assoc, last_snoc.
Qed.

Lemma count_summary_rows (stats : list (pystr * nat)) :
  ∀ q, unescaped sp q (summary_rows stats)
       = if sp (chr "&") then length stats else 0%nat.
Proof.
  unfold summary_rows.
  induction stats as [|stat stats IH]; intros q; cbn [map join length].
  - by destruct (sp (chr "&")).
  - destruct stats as [|stat' stats]; cbn [map join] in *.
    + rewrite count_summary_row. by destruct (sp (chr "&")).
    + rewrite unescaped_app, count_summary_row, summary_row_last.
      cbn [default from_option id app unescaped].
      rewrite IH.
      assert (sp 10 = false) as ->.
      { destruct (sp 10) eqn:E; [|done]. apply sp_active in E. done. }
      cbn [andb]. simpl length. destruct (sp (chr "&")); lia.
Qed.
End SummaryCount.

(** X10.  The rows of the summary table hold one ampersand that is not
    directly preceded by a backslash for each statistics entry, that is two
    cells a row, and no unescaped percent sign, dollar, hash or underscore,
    whatever the group keys are. *)
Theorem summary_rows_separators (stats : list (pystr * nat)) :
  unescaped is_amp 0 (summary_rows stats) = length stats
  ∧ unescaped is_other_active 0 (summary_rows stats) = 0%nat.
Proof.
  split.
  - rewrite (count_summary_rows is_amp); [done|].
    intros c H. unfold is_active. by rewrite H.
  - rewrite (count_summary_rows is_other_active); [done|].
    intros c H. unfold is_active. rewrite H. apply orb_true_r.
Qed.

(** ** File names *)

Lemma replace_char_map (old new : N) (s : pystr) :
  replace_char old [new] s = map (λ c, if c =? old then new else c) s.
Proof.
  unfold replace_char. induction s as [|c s IH]; [done|]. cbn [flat_map map].
  rewrite IH. by destruct (c =? old).
Qed.

(** X13.  The file name made from a group key has no slash and the length
    of the key, and is the key itself when the key has no slash.  A key
    with a slash is changed, and the changed text, which is a possible group
    key of its own (trimmed if the key is), gets the same file name: two
    groups of one file can be written to the same files. *)
Theorem safe_name_file (bildungsgang : pystr) :
  (chr "/" ∉ safe_name bildungsgang)
  ∧ length (safe_name bildungsgang) = length bildungsgang
  ∧ (chr "/" ∉ bildungsgang → safe_name bildungsgang = bildungsgang)
  ∧ (chr "/" ∈ bildungsgang →
     safe_name bildungsgang ≠ bildungsgang
     ∧ safe_name (safe_name bildungsgang) = safe_name bildungsgang
     ∧ (strip bildungsgang = bildungsgang →
        strip (safe_name bildungsgang) = safe_name bildungsgang)).
Proof.
  unfold safe_name. change (lit "-") with [chr "-"].
  rewrite !replace_char_map.
  set (f := (λ c : N, if c =? chr "/" then chr "-" else c)).
  assert (∀ s, chr "/" ∉ map f s) as Hno.
  { intros s Hin. apply list_elem_of_In, in_map_iff in Hin as (c & Hc & _).
    unfold f in Hc. destruct (c =? chr "/") eqn:E; [discriminate|].
    apply N.eqb_neq in E. done. }
  assert (∀ s, chr "/" ∉ s → map f s = s) as Hid.
  { induction s as [|c s IH]; [done|]. intros Hnot. cbn [map].
    apply not_elem_of_cons in Hnot as [Hc Hs]. rewrite (IH Hs). f_equal.
    unfold f. destruct (c =? chr "/") eqn:E; [|done].
    apply N.eqb_eq in E. congruence. }
  split; [apply Hno|]. split; [apply length_map|]. split; [apply Hid|].
  intros Hin. split; [|split].
  - intros Heq. apply (Hno bildungsgang). by rewrite Heq.
  - apply Hid, Hno.
  - intros Hs. rewrite strip_map; [by rewrite Hs|].
    intros c. unfold f. destruct (c =? chr "/") eqn:E; [|done].
    apply N.eqb_eq in E as ->. reflexivity.
Qed.

(** ** More on write_xlsx *)

Lemma py_dict_snoc (answers : list (pystr * answer_value))
    (kv : pystr * answer_value) :
  py_dict (answers ++ [kv]) = <[fst kv := snd kv]> (py_dict answers).
Proof. unfold py_dict. by rewrite fold_left_app. Qed.

(** [dict(answers)] keeps, for every name, the value of the last pair with
    that name. *)
Lemma py_dict_last (answers : list (pystr * answer_value)) (col : pystr) :
  py_dict answers !! col
  = snd <$> last (filter (λ kv, fst kv = col) answers).
Proof.
  induction answers as [|kv answers IH] using rev_ind; [done|].
  rewrite py_dict_snoc, filter_app, filter_cons, filter_nil.
  destruct (decide (fst kv = col)) as [<-|Hne].
  - by rewrite lookup_insert_eq, last_snoc.
  - by rewrite lookup_insert_ne, app_nil_r.
Qed.

Lemma filter_none {A : Type} (P : A → Prop) `{∀ x, Decision (P x)}
    (l : list A) :
  (∀ x, x ∈ l → ¬ P x) → filter P l = [].
Proof.
  induction l as [|x l IH]; [done|]. intros H1.
  rewrite filter_cons_False by (apply H1; by left).
  apply IH. intros y Hy. apply H1. by right.
Qed.

Lemma filter_name_NoDup (answers : list (pystr * answer_value))
    (col : pystr) (v : answer_value) :
  NoDup answers.*1 → (col, v) ∈ answers →
  filter (λ kv, fst kv = col) answers = [(col, v)].
Proof.
  induction answers as [|[k w] answers IH]; [by intros _ ?%not_elem_of_nil|].
  rewrite fmap_cons. intros [Hk Hnd]%NoDup_cons Hin. rewrite filter_cons.
  cbn [fst] in *. apply elem_of_cons in Hin as [[= <- <-]|Hin].
  - rewrite decide_True by done. f_equal.
    apply filter_none. intros [k' w'] Hin' Heq.
    simpl in Heq. subst k'. apply Hk. apply list_elem_of_fmap.
    by exists (col, w').
  - rewrite decide_False; [by apply IH|]. intros ->. apply Hk.
    apply list_elem_of_fmap. by exists (col, v).
Qed.

Section XlsxCells.
Variable py_int : pystr → option Z.
Variable F : Type.
Variable py_float : pystr → option F.

(** X14.  The sheet is a rectangle: one data row for each record, every
    data row as long as the header row, and the header row as long as the
    base columns (six, seven for an FG group) and the answer columns, whose
    number is what [write_xlsx] returns. *)
Theorem write_xlsx_rectangular (records : list record) (is_fg : bool) :
  let sheet := fst (write_xlsx py_int py_float records is_fg) in
  let n_cols := snd (write_xlsx py_int py_float records is_fg) in
  length (snd sheet) = length records
  ∧ Forall (λ row, length row = length (fst sheet)) (snd sheet)
  ∧ length (fst sheet)
    = (length BASE_FIELDS + (if is_fg then 1 else 0) + n_cols)%nat.
Proof.
  unfold write_xlsx. cbn [fst snd]. split; [apply length_map|]. split.
  - apply Forall_forall. intros row Hrow.
    apply list_elem_of_In, in_map_iff in Hrow as (rec & <- & _).
    unfold data_row, header_labels. by rewrite !length_app, !length_map.
  - unfold header_labels. rewrite length_app, length_map.
    by destruct is_fg.
Qed.

(** X15.  The cell of an answer column holds the converted value of the
    last entry of the record with that column name.  When the column names
    of the record are distinct it holds the converted value of the entry
    with that name, and a grade code is written as that integer whatever
    [int] and [float] do. *)
Theorem answer_cell_value (rec : record) (col : pystr) :
  let answers := parse_answers (rec_get rec GRADES_COLUMN) in
  answer_cell py_int py_float rec col
  = coerce py_int py_float
      (default (Text []) (snd <$> last (filter (λ kv, fst kv = col) answers)))
  ∧ (NoDup answers.*1 →
     ∀ v, (col, v) ∈ answers →
          answer_cell py_int py_float rec col = coerce py_int py_float v)
  ∧ (NoDup answers.*1 →
     ∀ n, (col, Number n) ∈ answers →
          answer_cell py_int py_float rec col = XInt n).
Proof.
  intros answers. unfold answer_cell. fold answers.
  rewrite py_dict_last. split; [done|].
  assert (NoDup answers.*1 →
          ∀ v, (col, v) ∈ answers →
               coerce py_int py_float
                 (default (Text [])
                    (snd <$> last (filter (λ kv, fst kv = col) answers)))
               = coerce py_int py_float v) as Hv.
  { intros Hnd v Hin. by rewrite (filter_name_NoDup _ _ _ Hnd Hin). }
  split; [done|]. intros Hnd n Hin. by rewrite (Hv Hnd _ Hin).
Qed.
End XlsxCells.

(** X16.  The answer columns of a list of records begin with the answer
    columns of any of its beginnings: records that come later only add, at
    the end, the columns not seen before. *)
Theorem all_answer_cols_app (records more : list record) :
  all_answer_cols (records ++ more)
  = all_answer_cols records
    ++ filter (λ c, c ∉ all_answer_cols records) (all_answer_cols more).
Proof.
  unfold all_answer_cols at 1. rewrite fold_left_app.
  fold (all_answer_cols records).
  rewrite all_answer_cols_fold, add_col_fold.
  by rewrite <- all_answer_cols_first_seen.
Qed.

(** ** More on parse_answers *)

(** X17.  A line with a separator is split at its first separator: the
    text before, the separator and the text after make up the line again,
    the text before holds no separator, and no other such split has a
    shorter text before. *)
Theorem split_sep_first (line : pystr) :
  contains_sep line = true →
  line = fst (split_sep line) ++ lit ": " ++ snd (split_sep line)
  ∧ contains_sep (fst (split_sep line)) = false
  ∧ ∀ k v, line = k ++ lit ": " ++ v → contains_sep k = false →
           (length (fst (split_sep line)) ≤ length k)%nat.
Proof.
  induction line as [|c line IH]; [done|].
  destruct line as [|d line]; [done|].
  change (contains_sep (c :: d :: line))
    with (((c =? 58) && (d =? 32)) || contains_sep (d :: line)).
  change (split_sep (c :: d :: line))
    with (if (c =? 58) && (d =? 32) then ([], line)
          else let '(k, v) := split_sep (d :: line) in (c :: k, v)).
  destruct ((c =? 58) && (d =? 32)) eqn:E.
  - intros _. apply andb_true_iff in E as [->%N.eqb_eq ->%N.eqb_eq].
    cbn [fst snd]. split; [done|]. split; [done|]. intros; simpl; lia.
  - cbn [orb]. intros H. destruct (IH H) as (Heq & Hno & Hmin).
    destruct (split_sep (d :: line)) as [k v]. cbn [fst snd] in *.
    split; [by rewrite Heq at 1|]. split.
    + destruct k as [|e k]; [done|].
      change (contains_sep (c :: e :: k))
        with (((c =? 58) && (e =? 32)) || contains_sep (e :: k)).
      rewrite Hno, orb_false_r.
      injection Heq as -> _. exact E.
    + intros k' v' Hline Hk'. destruct k' as [|c' k'].
      * injection Hline as -> -> _. done.
      * injection Hline as <- Hline. simpl.
        apply le_n_S, (Hmin k' v' Hline).
        destruct k' as [|e' k']; [done|].
        change (contains_sep (c :: e' :: k'))
          with (((c =? 58) && (e' =? 32)) || contains_sep (e' :: k')) in Hk'.
        by apply orb_false_iff in Hk' as [_ ?].
Qed.

Lemma label_app (kvs1 kvs2 : list (pystr * pystr)) :
  ∀ before,
    label before (kvs1 ++ kvs2)
    = label before kvs1 ++ label (before ++ kvs1.*1) kvs2.
Proof.
  induction kvs1 as [|[k v] kvs1 IH]; intros before; simpl.
  - by rewrite app_nil_r.
  - by rewrite IH, <- app_assoc.
Qed.

(** X18.  Lines added after a field content leave the entries of that
    content as they are: the result for the longer text begins with the
    result for the shorter one and goes on with as many entries as the added
    lines give on their own. *)
Theorem parse_answers_prefix (a b : pystr) :
  ∃ rest,
    parse_answers (Some (a ++ 10 :: b)) = parse_answers (Some a) ++ rest
    ∧ length rest = length (parse_answers (Some b)).
Proof.
  rewrite !parse_answers_label. unfold raw_pairs.
  rewrite split_lines_app, omap_app, label_app.
  eexists. split; [reflexivity|]. by rewrite !label_length.
Qed.

Lemma assoc_get_value {V : Type} (d : list (pystr * V)) (k : pystr) (v : V) :
  assoc_get d k = Some v → v ∈ d.*2.
Proof.
  induction d as [|[k' v'] d IH]; [done|]. cbn [assoc_get].
  rewrite fmap_cons. destruct (decide (k' = k)).
  - intros [= ->]. by left.
  - intros H. right. by apply IH.
Qed.

Lemma bewertung_wert_cases (value : pystr) :
  bewertung_wert value = Text value
  ∨ ∃ n, bewertung_wert value = Number n ∧ n ∈ [10; 20; 30; 40; 50]%Z.
Proof.
  unfold bewertung_wert.
  destruct (assoc_get BEWERTUNG_WERTE value) as [n|] eqn:E; [|by left].
  right. exists n. split; [done|]. by apply assoc_get_value in E.
Qed.

(** X19.  The value of an entry is either text that is trimmed, or one of
    the numbers 10, 20, 30, 40 and 50, and a number only stands in a column
    named [AV], [SV] or [Bewertung (n)]. *)
Theorem parse_answers_values (field_content : option pystr)
    (col_name : pystr) (value : answer_value) :
  (col_name, value) ∈ parse_answers field_content →
  (∃ text, value = Text text ∧ strip text = text)
  ∨ (∃ n, value = Number n ∧ n ∈ [10; 20; 30; 40; 50]%Z
          ∧ (col_name = lit "AV" ∨ col_name = lit "SV"
             ∨ ∃ count, col_name = numbered (lit "Bewertung") count)).
Proof.
  destruct field_content as [s|]; [|by intros ?%not_elem_of_nil].
  intros Hin. apply list_elem_of_lookup in Hin as [i Hi].
  assert (i < length (raw_pairs s))%nat as Hlt.
  { rewrite <- parse_answers_length. by apply lookup_lt_Some in Hi. }
  destruct (lookup_lt_is_Some_2 _ _ Hlt) as [[k v] Hkv].
  rewrite (parse_answers_lookup _ _ _ _ Hkv) in Hi. injection Hi as Hi.
  assert (strip v = v) as Hv.
  { unfold raw_pairs in Hkv. apply list_elem_of_lookup_2 in Hkv.
    apply list_elem_of_omap in Hkv as (line & _ & Hline).
    unfold parse_line in Hline.
    destruct (bool_decide _ || negb _); [discriminate|].
    destruct (split_sep (strip line)) as [k0 v0].
    injection Hline as _ <-. apply strip_strip. }
  unfold entry in Hi. destruct (decide (k = BEWERTUNG_KEY)) as [->|Hne].
  - injection Hi as <- <-.
    destruct (bewertung_wert_cases v) as [->|(n & -> & Hn)].
    + left. by exists v.
    + right. exists n. split; [done|]. split; [done|].
      unfold BEWERTUNG_RENAME.
      destruct (occurrences _ _) as [|[|[|c]]]; eauto.
  - injection Hi as _ <-. left. by exists v.
Qed.

(** ** escape_latex: what a caller can rely on *)

(** X1.  [escape_latex] gives the empty text for [None], and for a string
    the replacements of its characters one after the other, so it
    distributes over concatenation.  The replacement of a backslash is
    [\textbackslash\{\}]: the braces the first pass puts in are escaped
    by the later passes. *)
Theorem escape_latex_characterwise :
  escape_latex None = []
  ∧ (∀ s, escape_latex (Some s) = flat_map escape_char s)
  ∧ (∀ a b, escape_latex (Some (a ++ b))
            = escape_latex (Some a) ++ escape_latex (Some b))
  ∧ escape_latex (Some [BACKSLASH]) = lit "\textbackslash\{\}".
Proof.
  split; [done|]. split; [apply escape_latex_flat_map|]. split; [|done].
  intros a b. rewrite !escape_latex_flat_map. apply flat_map_app.
Qed.

(** X2.  [escape_latex] never shortens a text, and it returns the text
    unchanged exactly when the text holds none of the ten characters it
    replaces. *)
Theorem escape_latex_unchanged (s : pystr) :
  (length s ≤ length (escape_latex (Some s)))%nat
  ∧ (escape_latex (Some s) = s
     ↔ forallb (λ c, negb (latex_special c)) s = true).
Proof.
  destruct (escape_latex_length s) as [Hle Hlen]. split; [done|]. split.
  - intros Heq. apply Hlen. by rewrite Heq.
  - apply escape_latex_plain.
Qed.

(** X3.  In the result of [escape_latex] every ampersand, percent sign,
    dollar, hash and underscore is directly preceded by a backslash, and
    there is no tilde and no circumflex. *)
Theorem escape_latex_guards (text : option pystr) (prev : N) :
  unescaped is_active prev (escape_latex text) = 0%nat
  ∧ (chr "~" ∉ escape_latex text)
  ∧ (chr "^" ∉ escape_latex text).
Proof.
  split.
  - apply clean_any_prev, escape_latex_clean.
  - destruct text as [s|]; [|split; apply not_elem_of_nil].
    rewrite escape_latex_flat_map.
    assert (∀ x, x ∈ flat_map escape_char s → x ≠ chr "~" ∧ x ≠ chr "^")
      as Hall.
    { intros x Hx. apply list_elem_of_In, in_flat_map in Hx as (c & _ & Hx).
      apply list_elem_of_In in Hx. by apply (escape_char_no_tilde c). }
    split; intros Hin; by destruct (Hall _ Hin).
Qed.

(** ** The order of the printed rows *)

Section PrintOrder.
Variable py_lower : pystr → pystr.
Variable py_int : pystr → option Z.

Lemma print_key_returns (r : record) :
  (∀ c, r !! c ≠ Some None) →
  (∀ s, r !! COL_RANG = Some (Some s) → s ≠ [] → is_Some (py_int s)) →
  ∃ k, print_key py_lower py_int r = ok k.
Proof.
  intros Hcells Hrank. unfold print_key, rank_of, rec_get.
  destruct (r !! COL_RANG) as [[s|]|] eqn:Er; [|by destruct (Hcells COL_RANG)|].
  - cbn [default from_option id].
    destruct (decide (s = [])) as [->|Hne]; cbn [bind ok].
    + destruct (r !! COL_NAME) as [[n|]|] eqn:En;
        [|by destruct (Hcells COL_NAME)|];
        (destruct (r !! COL_VORNAME) as [[v|]|] eqn:Ev;
         [|by destruct (Hcells COL_VORNAME)|]); simpl; by eexists.
    + destruct (Hrank s eq_refl Hne) as [n ->]. cbn [bind ok].
      destruct (r !! COL_NAME) as [[n'|]|] eqn:En;
        [|by destruct (Hcells COL_NAME)|];
        (destruct (r !! COL_VORNAME) as [[v|]|] eqn:Ev;
         [|by destruct (Hcells COL_VORNAME)|]); simpl; by eexists.
  - cbn [default from_option id].
    destruct (r !! COL_NAME) as [[n|]|] eqn:En;
      [|by destruct (Hcells COL_NAME)|];
      (destruct (r !! COL_VORNAME) as [[v|]|] eqn:Ev;
       [|by destruct (Hcells COL_VORNAME)|]); simpl; by eexists.
Qed.


(** X7.  When the rows of the printed table are made without an
    exception there is one for each record, and each has the four (for an
    FG group five) unescaped ampersands of its table and no other unescaped
    active character. *)
Theorem latex_rows_table (is_fg : bool) (records : list record)
    (rows : list pystr) :
  latex_rows py_lower py_int is_fg records = ok rows →
  length rows = length records
  ∧ Forall (λ row,
              unescaped is_amp 0 row = (if is_fg then 5 else 4)%nat
              ∧ unescaped is_other_active 0 row = 0%nat)
           rows.
Proof.
  unfold latex_rows.
  destruct (print_sorted py_lower py_int records) as [e|sorted] eqn:Es;
    cbn [bind]; [discriminate|].
  intros Hrows%mapM_ok.
  apply print_sorted_order in Es as (Hperm & _).
  split.
  - rewrite <- (Permutation_length Hperm). symmetry.
    by apply Forall2_length in Hrows.
  - clear -Hrows. induction Hrows as [|r row sorted rows Hr _ IH]; [done|].
    constructor; [|done]. by apply (latex_row_counts is_fg r).
Qed.
End PrintOrder.

(** ** escape_latex can be undone *)

Lemma escape_char_nonempty (c : N) : escape_char c ≠ [].
Proof.
  intros H. destruct (escape_char_length c) as [Hlen _].
  rewrite H in Hlen. simpl in Hlen. lia.
Qed.

(** No replacement is the beginning of another one. *)
Lemma escape_char_prefix_free (c d : N) (a b : pystr) :
  escape_char c ++ a = escape_char d ++ b → c = d.
Proof.
  unfold escape_char.
  repeat (match goal with
          | |- context [?x =? ?y] => destruct (x =? y) eqn:?
          end);
    repeat (match goal with
            | H : (_ =? _) = true |- _ => apply N.eqb_eq in H
            end);
    subst; try reflexivity; intros H; vm_compute in H;
    try discriminate; injection H; intros; subst;
    try reflexivity; try discriminate.
Qed.

Lemma flat_map_escape_inj (s : pystr) :
  ∀ t, flat_map escape_char s = flat_map escape_char t → s = t.
Proof.
  induction s as [|c s IH]; intros [|d t]; cbn [flat_map]; [done| | |].
  - intros H. symmetry in H. apply app_eq_nil in H as [H _].
    by apply escape_char_nonempty in H.
  - intros H. apply app_eq_nil in H as [H _].
    by apply escape_char_nonempty in H.
  - intros H. pose proof (escape_char_prefix_free _ _ _ _ H) as ->.
    apply app_inv_head in H. by rewrite (IH t H).
Qed.

(** X4.  Two strings have the same escaped text only when they are the
    same string: no replacement is the beginning of another one, so the
    escaped text can be read back. *)
Theorem escape_latex_injective (s t : pystr) :
  escape_latex (Some s) = escape_latex (Some t) ↔ s = t.
Proof.
  split; [|by intros ->]. rewrite !escape_latex_flat_map.
  apply flat_map_escape_inj.
Qed.

(** ** A stable sort has one result *)

Section StableUnique.
Context {A K : Type} `{EqDecision K} (key : A → result K)
  (le : K → K → bool).
Hypothesis le_antisym : ∀ x y, le x y = true → le y x = true → x = y.

Lemma filter_key_nil (l : list A) :
  Forall (λ x, ∃ k, key x = ok k) l →
  (∀ k, filter (λ x, key x = ok k) l = []) → l = [].
Proof.
  destruct l as [|x l]; [done|]. intros Hkeys Hnil.
  apply Forall_inv in Hkeys as [k Hk]. specialize (Hnil k).
  by rewrite filter_cons_True in Hnil.
Qed.

Lemma stable_sort_unique (l1 : list A) :
  ∀ l2,
    StronglySorted (key_le key le) l1 →
    StronglySorted (key_le key le) l2 →
    Forall (λ x, ∃ k, key x = ok k) l1 →
    Forall (λ x, ∃ k, key x = ok k) l2 →
    (∀ k, filter (λ x, key x = ok k) l1 = filter (λ x, key x = ok k) l2) →
    l1 = l2.
Proof.
  induction l1 as [|x l1 IH]; intros l2 Hs1 Hs2 Hk1 Hk2 Hf.
  - symmetry. apply filter_key_nil; [done|]. intros k. by rewrite <- Hf.
  - apply StronglySorted_inv in Hs1 as [Hs1 Hx].
    apply Forall_cons in Hk1 as [[kx Hkx] Hk1].
    destruct l2 as [|y l2].
    { specialize (Hf kx). by rewrite filter_cons_True in Hf. }
    apply StronglySorted_inv in Hs2 as [Hs2 Hy].
    apply Forall_cons in Hk2 as [[ky Hky] Hk2].
    assert (kx = ky) as <-.
    { destruct (decide (kx = ky)) as [|Hne]; [done|]. exfalso.
      assert (@ok K kx ≠ ok ky) as Hne' by (by intros [=]).
      assert (@ok K ky ≠ ok kx) as Hne'' by (by intros [=]).
      pose proof (Hf kx) as Hfx. pose proof (Hf ky) as Hfy.
      rewrite filter_cons_True in Hfx by done.
      rewrite (filter_cons_False _ y) in Hfx by (by rewrite Hky).
      rewrite (filter_cons_False _ x) in Hfy by (by rewrite Hkx).
      rewrite filter_cons_True in Hfy by done.
      assert (x ∈ l2) as Hxin.
      { assert (x ∈ filter (λ z, key z = ok kx) l2) as Hin
          by (rewrite <- Hfx; by left).
        by apply list_elem_of_filter in Hin as [_ ?]. }
      assert (y ∈ l1) as Hyin.
      { assert (y ∈ filter (λ z, key z = ok ky) l1) as Hin
          by (rewrite Hfy; by left).
        by apply list_elem_of_filter in Hin as [_ ?]. }
      rewrite Forall_forall in Hx, Hy.
      destruct (Hx y Hyin) as (a & b & Ha & Hb & Hab).
      destruct (Hy x Hxin) as (a' & b' & Ha' & Hb' & Hab').
      rewrite Hkx in Ha, Hb'. rewrite Hky in Hb, Ha'.
      injection Ha as <-. injection Hb as <-.
      injection Ha' as <-. injection Hb' as <-.
      apply Hne. by apply le_antisym. }
    pose proof (Hf kx) as Hfx.
    rewrite !filter_cons_True in Hfx by done.
    injection Hfx as -> Hfx. f_equal.
    apply IH; try done. intros k. specialize (Hf k).
    rewrite !filter_cons in Hf.
    destruct (decide (key y = ok k)); [by injection Hf|done].
Qed.
End StableUnique.

Lemma triple_leb_antisym (a b : Z * pystr * pystr) :
  triple_leb a b = true → triple_leb b a = true → a = b.
Proof.
  intros Hab Hba. by apply (leb_antisym triple_ltb triple_ltb_lexico).
Qed.

Section PrintAfterNameSort.
Variable py_lower : pystr → pystr.
Variable py_int : pystr → option Z.

Lemma print_key_name_key (r : record) (rank : Z) (n v : pystr) :
  print_key py_lower py_int r = ok (rank, n, v) →
  name_key py_lower r = ok (n, v).
Proof.
  unfold print_key, name_key.
  destruct (rank_of py_int r); cbn [bind]; [discriminate|].
  destruct (lower_of py_lower (rec_get r COL_NAME)); cbn [bind];
    [discriminate|].
  destruct (lower_of py_lower (rec_get r COL_VORNAME)); cbn [bind];
    [discriminate|].
  by intros [= _ <- <-].
Qed.

Lemma print_sorted_keys (records out : list record) :
  print_sorted py_lower py_int records = ok out →
  Forall (λ r, ∃ k, print_key py_lower py_int r = ok k) records.
Proof.
  intros (keyed & Hkeys & <- & _)%sort_with_key_keyed.
  rewrite Forall_fmap. eapply Forall_impl; [exact Hkeys|].
  intros [k r] H. by exists k.
Qed.

(** X9.  The order of the printed rows does not depend on the sort by name
    that [process_csv] does first: print-sorting the rows sorted by name
    gives what print-sorting the rows in file order gives. *)
Theorem print_sorted_after_name_sort (records sorted out : list record) :
  sort_with_key (name_key py_lower) pair_leb records = ok sorted →
  print_sorted py_lower py_int records = ok out →
  print_sorted py_lower py_int sorted = ok out.
Proof.
  intros Hname Hprint.
  pose proof (print_sorted_keys _ _ Hprint) as Hkeys.
  pose proof (sort_with_key_perm _ _ _ _ Hname) as Hperm.
  assert (Forall (λ r, ∃ k, print_key py_lower py_int r = ok k) sorted)
    as Hkeys' by (by rewrite Hperm).
  destruct (sort_with_key_total (print_key py_lower py_int) triple_leb
              sorted Hkeys') as [out' Hout'].
  change (print_sorted py_lower py_int sorted = ok out') in Hout'.
  rewrite Hout'. f_equal.
  destruct (print_sorted_order _ _ _ _ Hprint) as (Hp1 & Hs1 & Hf1).
  destruct (print_sorted_order _ _ _ _ Hout') as (Hp2 & Hs2 & Hf2).
  apply (stable_sort_unique (print_key py_lower py_int) triple_leb
           triple_leb_antisym); try done.
  - by rewrite Hp2.
  - by rewrite Hp1.
  - intros [[rank n] v]. rewrite Hf1, Hf2.
    assert (∀ l : list record,
               filter (λ r, print_key py_lower py_int r = ok (rank, n, v)) l
               = filter
                   (λ r, print_key py_lower py_int r = ok (rank, n, v))
                   (filter (λ r, name_key py_lower r = ok (n, v)) l)) as Hsub.
    { intros l. rewrite list_filter_filter. apply list_filter_iff.
      intros r. split; [|by intros [? _]]. intros H. split; [done|].
      by apply (print_key_name_key r rank). }
    rewrite (Hsub sorted), (Hsub records). f_equal.
    apply (sort_with_key_stable (name_key py_lower) pair_leb
             pair_leb_total _ _ _ Hname).
Qed.
End PrintAfterNameSort.

(** ** A whole run of process_csv *)

Section WholeRun.
Variable py_lower : pystr → pystr.
Variable py_int : pystr → option Z.
Variable F : Type.
Variable py_float : pystr → option F.
Variable save_xlsx : pystr → sheet F → result unit.
Variable typeset : pystr → latex_document → result bool.

(** In a run that is not cut short every group of the file has gone through
    the body of the loop. *)
Lemma process_csv_written (records : list record)
    (out : list (pystr * list record)) (r : record) :
  skipped records = false →
  process_csv py_lower py_int py_float save_xlsx typeset records = ok out →
  r ∈ records →
  ∃ k o,
    process_group py_lower py_int py_float save_xlsx typeset
                  (k, bucket k records)
    = ok o
    ∧ o ∈ out
    ∧ r ∈ bucket k records.
Proof.
  unfold process_csv, skipped. destruct records as [|first rest]; [done|].
  intros Hskip%bool_decide_eq_false. rewrite decide_False by done.
  destruct (group_loop [] (first :: rest)) as [e|groups] eqn:Hgroups;
    cbn [bind]; [discriminate|].
  intros Hout%mapM_ok Hr.
  apply group_loop_spec in Hgroups as (_ & Hbuckets & Hkeys).
  rewrite Forall_forall in Hkeys. destruct (Hkeys r Hr) as [k Hk].
  assert (r ∈ bucket k (first :: rest)) as Hin
    by (by apply list_elem_of_filter).
  assert ((k, bucket k (first :: rest)) ∈ sorted_items groups) as Hitem.
  { unfold sorted_items. rewrite stable_sort_perm. apply Hbuckets.
    split; [done|]. intros Hnil. rewrite Hnil in Hin.
    by apply not_elem_of_nil in Hin. }
  apply list_elem_of_lookup in Hitem as [i Hi].
  destruct (Forall2_lookup_l _ _ _ _ _ Hout Hi) as (o & Ho & Hgroup).
  exists k, o. split; [done|]. split; [|done].
  by apply list_elem_of_lookup_2 in Ho.
Qed.

Lemma write_latex_pdf_sorted (records : list record) (pdf_path : pystr)
    (bildungsgang : pystr) (is_fg done : bool) :
  write_latex_pdf py_lower py_int typeset records pdf_path bildungsgang is_fg
  = ok done →
  ∃ sorted, print_sorted py_lower py_int records = ok sorted.
Proof.
  unfold write_latex_pdf.
  destruct (print_sorted py_lower py_int records) as [e|sorted];
    cbn [bind]; [discriminate|]. by exists sorted.
Qed.

(** X20.  One row with a rank that is not empty and that [int] does not
    accept stops the whole file: whatever the other rows are and whatever
    the libraries do, a run of [process_csv] on a file that is not skipped
    and holds such a row ends in an exception. *)
Theorem process_csv_bad_rank (records : list record) (r : record)
    (rank : pystr) :
  skipped records = false →
  r ∈ records →
  r !! COL_RANG = Some (Some rank) →
  rank ≠ [] →
  py_int rank = None →
  ∃ e,
    process_csv py_lower py_int py_float save_xlsx typeset records = raise e.
Proof.
  intros Hskip Hr Hrank Hne Hint.
  destruct (process_csv py_lower py_int py_float save_xlsx typeset records)
    as [e|out] eqn:Hout; [by exists e|exfalso].
  destruct (process_csv_written _ _ _ Hskip Hout Hr) as (k & o & Ho & _ & Hin).
  apply process_group_ok in Ho as (_ & Hsort & _ & done & Hpdf).
  cbn [fst snd] in Hsort, Hpdf.
  apply write_latex_pdf_sorted in Hpdf as [sorted Hsorted].
  apply sort_with_key_perm in Hsort.
  assert (r ∈ o.2) as Hin' by (by rewrite Hsort).
  assert (print_key py_lower py_int r = raise ValueError) as Hkey.
  { unfold print_key, rank_of, rec_get. rewrite Hrank. simpl.
    rewrite decide_False by done. by rewrite Hint. }
  unfold print_sorted, sort_with_key in Hsorted.
  destruct (mapM_raises
              (λ x, let* k := print_key py_lower py_int x in ok (k, x))
              o.2 r ValueError Hin') as [e He].
  - by rewrite Hkey.
  - rewrite He in Hsorted. discriminate.
Qed.
End WholeRun.

Section WholeRunReturns.
Variable py_lower : pystr → pystr.
Variable py_int : pystr → option Z.
Variable F : Type.
Variable py_float : pystr → option F.
Variable save_xlsx : pystr → sheet F → result unit.
Variable typeset : pystr → latex_document → result bool.

Hypothesis save_xlsx_works : ∀ path s, save_xlsx path s = ok tt.
Hypothesis typeset_works : ∀ path doc, ∃ done, typeset path doc = ok done.

Lemma write_latex_pdf_returns (records : list record) (pdf_path : pystr)
    (bildungsgang : pystr) (is_fg : bool) :
  records ≠ [] →
  (∀ r c, r ∈ records → r !! c ≠ Some None) →
  (∀ r s, r ∈ records → r !! COL_RANG = Some (Some s) → s ≠ [] →
          is_Some (py_int s)) →
  ∃ done,
    write_latex_pdf py_lower py_int typeset records pdf_path bildungsgang
                    is_fg
    = ok done.
Proof.
  intros Hne Hcells Hrank. unfold write_latex_pdf.
  destruct (sort_with_key_total (print_key py_lower py_int) triple_leb
              records) as [sorted Hsorted].
  { apply Forall_forall. intros r Hr. apply print_key_returns.
    - intros c. by apply Hcells.
    - intros s. by apply Hrank. }
  unfold print_sorted. rewrite Hsorted. cbn [bind ok].
  apply sort_with_key_perm in Hsorted.
  destruct (mapM_total (latex_row is_fg) sorted) as [rows ->].
  { apply Forall_forall. intros r Hr. rewrite Hsorted in Hr.
    destruct (latex_row_result is_fg r)
      as [[_ Hnone]|(c1 & c2 & c3 & c4 & _ & _ & _ & _ & _ & ->)];
      [|by eexists].
    apply Exists_exists in Hnone as (f & _ & Hf). by destruct (Hcells r f). }
  cbn [bind ok].
  destruct sorted as [|first sorted].
  { apply Permutation_nil_l in Hsorted. by destruct Hne. }
  destruct (g_cases first COL_BILDUNGSGANG) as [[_ Hnone]|(x & -> & _)].
  - destruct (Hcells first COL_BILDUNGSGANG); [|done].
    rewrite <- Hsorted. by left.
  - cbn [bind ok]. apply typeset_works.
Qed.

(** X21.  When every cell of the file is a string, every rank that is not
    empty is accepted by [int], and the libraries raise nothing, the run of
    [process_csv] returns: no group is left out because of an exception. *)
Theorem process_csv_returns (records : list record) :
  (∀ r c, r ∈ records → r !! c ≠ Some None) →
  (∀ r s, r ∈ records → r !! COL_RANG = Some (Some s) → s ≠ [] →
          is_Some (py_int s)) →
  ∃ out,
    process_csv py_lower py_int py_float save_xlsx typeset records = ok out
    ∧ (skipped records = false → ∀ r, r ∈ records → ∃ o, o ∈ out ∧ r ∈ o.2).
Proof.
  intros Hcells Hrank. unfold process_csv, skipped.
  destruct records as [|first rest] eqn:Erec; [by exists []|].
  rewrite <- Erec in *.
  destruct (decide (first !! GRADES_COLUMN = None)) as [Hnone|Hsome].
  { exists []. split; [done|]. by rewrite bool_decide_eq_true_2. }
  destruct (group_loop_total records []) as [groups Hgroups].
  { apply Forall_forall. intros r Hr. apply group_key_total.
    intros c. by apply Hcells. }
  rewrite Hgroups. cbn [bind ok].
  pose proof Hgroups as (_ & Hbuckets & Hkeys)%group_loop_spec.
  destruct (mapM_total
              (process_group py_lower py_int py_float save_xlsx typeset)
              (sorted_items groups)) as [out Hout].
  { apply Forall_forall. intros [k rs] Hin.
    assert ((k, rs) ∈ groups) as Hin'.
    { unfold sorted_items in Hin. by rewrite stable_sort_perm in Hin. }
    apply Hbuckets in Hin' as [-> Hne].
    assert (∀ r, r ∈ bucket k records → r ∈ records) as Hsub.
    { by intros r [_ Hr]%list_elem_of_filter. }
    unfold process_group. cbn [fst snd].
    destruct (sort_with_key_total (name_key py_lower) pair_leb
                (bucket k records)) as [sorted Hsorted].
    { apply Forall_forall. intros r Hr%Hsub. apply name_key_total.
      intros c. by apply Hcells. }
    rewrite Hsorted. cbn [bind ok]. rewrite save_xlsx_works. cbn [bind ok].
    apply sort_with_key_perm in Hsorted.
    destruct (write_latex_pdf_returns sorted
                (safe_name k ++ lit ".pdf") k (is_fg k)) as [done ->].
    - intros ->. apply Permutation_nil_l in Hsorted. by destruct Hne.
    - intros r c Hr. rewrite Hsorted in Hr. by apply Hcells, Hsub.
    - intros r s Hr. rewrite Hsorted in Hr. by apply Hrank, Hsub.
    - cbn [bind ok]. by eexists. }
  exists out. split; [done|]. intros _ r Hr.
  assert (skipped records = false) as Hskip.
  { rewrite Erec. cbn [skipped]. by rewrite bool_decide_eq_false_2. }
  assert (process_csv py_lower py_int py_float save_xlsx typeset records
          = ok out) as Hrun.
  { unfold process_csv. rewrite Erec, decide_False by done.
    rewrite <- Erec, Hgroups. exact Hout. }
  destruct (process_csv_written py_lower py_int F py_float save_xlsx typeset
              _ _ _ Hskip Hrun Hr) as (k & o & Ho & Hin & Hb).
  exists o. split; [done|].
  apply process_group_ok in Ho as (_ & Hsort & _).
  cbn [snd] in Hsort. apply sort_with_key_perm in Hsort. by rewrite Hsort.
Qed.
End WholeRunReturns.

(** ** The further theorems at sample inputs *)

Lemma address_row_strings (c : pystr) : address_row !! c ≠ Some None.
Proof.
  unfold address_row. rewrite !lookup_insert.
  repeat case_decide; try discriminate; apply make_row_strings.
Qed.

Lemma latex_row_separators_witness :
  ∃ row,
    latex_row true address_row = ok row
    ∧ unescaped is_amp 0 row = 5%nat
    ∧ unescaped is_other_active 0 row = 0%nat.
Proof.
  destruct (latex_row true address_row) as [e|row] eqn:E.
  - apply (f_equal returns) in E. vm_compute in E. discriminate.
  - exists row. split; [reflexivity|].
    exact (latex_row_separators true address_row row E).
Defined.

Lemma latex_rows_table_witness :
  ∃ rows,
    latex_rows ascii_lower ascii_int true (address_row :: sample_rows)
    = ok rows
    ∧ length rows = 5%nat
    ∧ Forall (λ row,
                unescaped is_amp 0 row = 5%nat
                ∧ unescaped is_other_active 0 row = 0%nat)
             rows.
Proof.
  destruct (latex_rows ascii_lower ascii_int true (address_row :: sample_rows))
    as [e|rows] eqn:E.
  - apply (f_equal returns) in E. vm_compute in E. discriminate.
  - exists rows. split; [reflexivity|].
    exact (latex_rows_table ascii_lower ascii_int true
             (address_row :: sample_rows) rows E).
Defined.

Lemma sample_rows_ranks (r : record) (s : pystr) :
  r ∈ sample_rows → r !! COL_RANG = Some (Some s) → s ≠ [] →
  is_Some (ascii_int s).
Proof.
  unfold sample_rows. intros Hr H Hne.
  repeat (apply elem_of_cons in Hr as [->|Hr];
          [vm_compute in H; injection H as <-;
           first [done | vm_compute; by eexists]|]).
  by apply not_elem_of_nil in Hr.
Qed.


Lemma name_sorted_sample :
  ∃ sorted,
    sort_with_key (name_key ascii_lower) pair_leb sample_rows = ok sorted.
Proof.
  destruct (sort_with_key (name_key ascii_lower) pair_leb sample_rows)
    as [e|sorted] eqn:E.
  - apply (f_equal returns) in E. vm_compute in E. discriminate.
  - by exists sorted.
Defined.

Lemma print_sorted_sample :
  ∃ out, print_sorted ascii_lower ascii_int sample_rows = ok out.
Proof.
  destruct (print_sorted ascii_lower ascii_int sample_rows)
    as [e|out] eqn:E.
  - apply (f_equal returns) in E. vm_compute in E. discriminate.
  - by exists out.
Defined.

Lemma print_sorted_after_name_sort_witness :
  ∃ sorted out,
    sort_with_key (name_key ascii_lower) pair_leb sample_rows = ok sorted
    ∧ print_sorted ascii_lower ascii_int sample_rows = ok out
    ∧ print_sorted ascii_lower ascii_int sorted = ok out.
Proof.
  destruct name_sorted_sample as [sorted Hsorted].
  destruct print_sorted_sample as [out Hout].
  exists sorted, out. split; [exact Hsorted|]. split; [exact Hout|].
  exact (print_sorted_after_name_sort ascii_lower ascii_int sample_rows
           sorted out Hsorted Hout).
Defined.

Lemma process_csv_partition_witness :
  ∃ out,
    process_csv ascii_lower ascii_int ascii_float saved typeset_done
                sample_rows
    = ok out
    ∧ summary_total (group_stats out) = 4%nat
    ∧ NoDup out.*1.
Proof.
  destruct sample_rows_processed as [out Hout]. exists out.
  destruct (process_csv_partition ascii_lower ascii_int (Z * nat)%type
              ascii_float saved typeset_done sample_rows out Hout)
    as (_ & Htotal & Hnd & _).
  split; [exact Hout|]. split; [|exact Hnd].
  apply Htotal. vm_compute. reflexivity.
Defined.

Lemma main_stats_total_witness :
  ∃ stats,
    main_stats ascii_lower ascii_int ascii_float saved typeset_done
               [sample_rows; []; [row_blank]]
    = ok stats
    ∧ summary_total stats = 5%nat.
Proof.
  destruct (main_stats ascii_lower ascii_int ascii_float saved typeset_done
                       [sample_rows; []; [row_blank]])
    as [e|stats] eqn:E.
  - apply (f_equal returns) in E. vm_compute in E. discriminate.
  - exists stats. split; [reflexivity|].
    destruct (main_stats_total ascii_lower ascii_int (Z * nat)%type
                ascii_float saved typeset_done _ stats E) as [-> _].
    vm_compute. reflexivity.
Defined.

Lemma safe_name_file_witness :
  (chr "/" ∈ lit "FG/1")
  ∧ safe_name (lit "FG/1") = lit "FG-1"
  ∧ safe_name (safe_name (lit "FG/1")) = safe_name (lit "FG/1")
  ∧ strip (safe_name (lit "FG/1")) = safe_name (lit "FG/1").
Proof.
  assert (chr "/" ∈ lit "FG/1") as Hin.
  { vm_compute. right. right. left. }
  split; [exact Hin|]. split; [vm_compute; reflexivity|].
  destruct (safe_name_file (lit "FG/1")) as (_ & _ & _ & Hslash).
  destruct (Hslash Hin) as (_ & Hidem & Htrim).
  split; [exact Hidem|]. apply Htrim. vm_compute. reflexivity.
Defined.

Lemma answer_cell_value_witness :
  NoDup (parse_answers (rec_get row_adam GRADES_COLUMN)).*1
  ∧ answer_cell ascii_int ascii_float row_adam (lit "Kunst (2)") = XInt 4.
Proof.
  assert (NoDup (parse_answers (rec_get row_adam GRADES_COLUMN)).*1) as Hnd.
  { vm_compute.
    repeat (apply NoDup_cons_2;
            [intros H;
             repeat (apply elem_of_cons in H as [H|H]; [discriminate|]);
             by apply not_elem_of_nil in H|]).
    apply NoDup_nil_2. }
  split; [exact Hnd|].
  destruct (answer_cell_value ascii_int (Z * nat)%type ascii_float row_adam
              (lit "Kunst (2)")) as (_ & Hvalue & _).
  rewrite (Hvalue Hnd (Text (lit "4"))); [reflexivity|].
  vm_compute. right. right. left.
Defined.

Lemma split_sep_first_witness :
  contains_sep (lit "a: b: c") = true
  ∧ split_sep (lit "a: b: c") = (lit "a", lit "b: c")
  ∧ contains_sep (fst (split_sep (lit "a: b: c"))) = false.
Proof.
  split; [reflexivity|]. split; [reflexivity|].
  exact (proj1 (proj2 (split_sep_first (lit "a: b: c") eq_refl))).
Defined.

Lemma parse_answers_values_witness :
  (lit "AV", Number 30) ∈ parse_answers (Some three_gradings)
  ∧ ((∃ text, Number 30 = Text text ∧ strip text = text)
     ∨ (∃ n, Number 30 = Number n ∧ n ∈ [10; 20; 30; 40; 50]%Z
             ∧ (lit "AV" = lit "AV" ∨ lit "AV" = lit "SV"
                ∨ ∃ count, lit "AV" = numbered (lit "Bewertung") count))).
Proof.
  assert ((lit "AV", Number 30) ∈ parse_answers (Some three_gradings)) as Hin.
  { vm_compute. left. }
  split; [exact Hin|].
  exact (parse_answers_values (Some three_gradings) (lit "AV") (Number 30) Hin).
Defined.

Lemma process_csv_bad_rank_witness :
  (∃ e,
     process_csv ascii_lower ascii_int ascii_float saved typeset_done
                 [row_bad_rank; row_zed]
     = raise e)
  ∧ process_csv ascii_lower ascii_int ascii_float saved typeset_done
                [row_bad_rank; row_zed]
    = raise ValueError.
Proof.
  split; [|vm_compute; reflexivity].
  apply (process_csv_bad_rank ascii_lower ascii_int (Z * nat)%type
           ascii_float saved typeset_done [row_bad_rank; row_zed]
           row_bad_rank (lit "abc")).
  - vm_compute; reflexivity.
  - left.
  - vm_compute; reflexivity.
  - vm_compute; discriminate.
  - vm_compute; reflexivity.
Defined.

Lemma process_csv_returns_witness :
  ∃ out,
    process_csv ascii_lower ascii_int ascii_float saved typeset_done
                sample_rows
    = ok out
    ∧ ∀ r, r ∈ sample_rows → ∃ o, o ∈ out ∧ r ∈ o.2.
Proof.
  destruct (process_csv_returns ascii_lower ascii_int (Z * nat)%type
              ascii_float saved typeset_done
              (λ _ _, eq_refl) (λ _ _, ex_intro _ true eq_refl)
              sample_rows sample_rows_strings sample_rows_ranks)
    as (out & Hout & Hall).
  exists out. split; [exact Hout|]. apply Hall. vm_compute. reflexivity.
Defined.
